(** * RFM segmentation dashboard (app.py): a shallow embedding

    The script loads a sales ledger, cleans it, computes the
    Recency / Frequency / Monetary table per customer, scores each metric
    with [pd.qcut], maps the three digit code to a segment and serves five
    aggregates through the callback [update_charts].

    Data frames are lists of rows with nullable cells ([None] is NaN / NaT),
    timestamps are nanoseconds since the epoch, Python exceptions are an
    explicit [Raise] outcome and [print] is a log of messages.

    Numeric columns hold rationals and their products and sums are exact,
    where the machine arithmetic of the script (int64, float64) rounds, wraps
    or overflows.  The properties below are those that do not depend on the
    value of a product or of a sum: which rows are kept, which keys a table
    has and in which order, how values compare, what is raised. *)

From Stdlib Require Import String Ascii ZArith QArith Qcanon List Bool Lia Lqa.
From Stdlib Require Import Permutation Sorted DecimalString OrdersEx.
Import ListNotations.

Set Implicit Arguments.

(** ** Python outcomes: exceptions and printed output *)

Module Py.

Inductive exn : Type :=
| FileNotFoundError
| KeyError (column : string)
| ValueError (msg : string).

Inductive result (A : Type) : Type :=
| Ok (a : A)
| Raise (e : exn).

Arguments Ok {A} a.
Arguments Raise {A} e.

Definition bind {A B} (r : result A) (f : A -> result B) : result B :=
  match r with
  | Ok a => f a
  | Raise e => Raise e
  end.

Definition raises {A} (r : result A) : bool :=
  match r with
  | Ok _ => false
  | Raise _ => true
  end.

End Py.

Import Py.

Notation "x <- c1 ;; c2" := (Py.bind c1 (fun x => c2))
  (at level 61, c1 at next level, right associativity).

(** ** Nullable cells and numeric helpers *)

Definition isna {A} (c : option A) : bool :=
  match c with
  | Some _ => false
  | None => true
  end.

Definition notna {A} (c : option A) : bool := negb (isna c).

(** [Series.dropna()]. *)
Fixpoint dropna {A} (s : list (option A)) : list A :=
  match s with
  | [] => []
  | Some a :: t => a :: dropna t
  | None :: t => dropna t
  end.

Definition Qltb (a b : Q) : bool := negb (Qle_bool b a).

(** Product of two numeric cells; NaN is absorbing.  The product is exact
    here; the one of the script is NaN for the same cells when both factors
    are finite. *)
Definition mul_cell (a b : option Q) : option Q :=
  match a, b with
  | Some x, Some y => Some (x * y)%Q
  | _, _ => None
  end.

(** A comparison of a cell with a scalar is False on NaN. *)
Definition gt_cell (c : option Q) (bound : Q) : bool :=
  match c with
  | Some x => Qltb bound x
  | None => false
  end.

(** [Series.sum()]: NaN is skipped, the empty sum is 0.  The sum is exact
    here. *)
Definition Qsum (s : list Q) : Q := fold_right Qplus 0%Q s.

Definition opt_eqb {A} (eqb : A -> A -> bool) (a b : option A) : bool :=
  match a, b with
  | Some x, Some y => eqb x y
  | None, None => true
  | _, _ => false
  end.

(** [str(i)] for a non-negative integer. *)
Definition str_nat (n : nat) : string :=
  NilZero.string_of_uint (Nat.to_uint n).

Definition str_Z (z : Z) : string :=
  NilZero.string_of_int (Z.to_int z).

(** ** Library primitives used by the script *)

Module Pandas.

Section Order.
Variable A : Type.
Variable leb : A -> A -> bool.

(** Stable insertion: the new element goes before the first element it
    is [leb] to, so that equal keys keep their original order. *)
Fixpoint insert (x : A) (l : list A) : list A :=
  match l with
  | [] => [x]
  | y :: t => if leb x y then x :: y :: t else y :: insert x t
  end.

Fixpoint sort (l : list A) : list A :=
  match l with
  | [] => []
  | x :: t => insert x (sort t)
  end.
End Order.

Section Unique.
Variable A : Type.
Variable eqb : A -> A -> bool.

Definition mem (x : A) (l : list A) : bool := existsb (eqb x) l.

(** [algos.unique]: the distinct values in order of first appearance. *)
Fixpoint unique_from (seen l : list A) : list A :=
  match l with
  | [] => []
  | x :: t =>
      if mem x seen then unique_from seen t
      else x :: unique_from (x :: seen) t
  end.

Definition unique (l : list A) : list A := unique_from [] l.

(** [Series.nunique()]: number of distinct non-null values. *)
Definition nunique (s : list (option A)) : nat :=
  length (unique (dropna s)).
End Unique.

(** *** [Series.quantile] with linear interpolation

    [quantile q s k] is the quantile [k/q] of the sorted non-empty values
    [s]: position [(n-1)*k/q], interpolated between its two neighbours. *)
Definition quantile (q : nat) (s : list Q) (k : nat) : Q :=
  let p := ((length s - 1) * k)%nat in
  let lo := (p / q)%nat in
  let r := (p mod q)%nat in
  let a := nth lo s 0%Q in
  match r with
  | O => a
  | _ =>
      let b := nth (S lo) s a in
      (a + (Z.of_nat r # Pos.of_nat q) * (b - a))%Q
  end.

(** [np.linspace(0, 1, q + 1)] as the numerators [0..q]. *)
Definition linspace (q : nat) : list nat := seq 0 (S q).

(** [bins.searchsorted(x, side='left')] on increasing edges: the number of
    edges strictly below [x]. *)
Definition searchsorted_left (bins : list Q) (x : Q) : nat :=
  length (filter (fun b => Qltb b x) bins).

Definition labels_error : exn :=
  ValueError "Bin labels must be one fewer than the number of bin edges".

(** The bin index of one value in [_bins_to_cuts] with
    [include_lowest=True]; [None] is the NA mask. *)
Definition bin_id (bins : list Q) (x : option Q) : option nat :=
  match x with
  | None => None
  | Some v =>
      let id0 := searchsorted_left bins v in
      let id :=
        match bins with
        | b0 :: _ => if Qeq_bool v b0 then 1%nat else id0
        | [] => id0
        end in
      if (id =? length bins)%nat || (id =? 0)%nat then None else Some id
  end.

(** The quantile edges of [qcut]: [np.linspace(0, 1, q + 1)] quantiles of
    the non-null values.  With no non-null value every edge is NaN and
    [duplicates='drop'] leaves one NaN edge, that is no bin at all; the empty
    list stands for it. *)
Definition quantile_edges (x : list (option Q)) (q : nat) : list Q :=
  let vals := sort Qle_bool (dropna x) in
  match vals with
  | [] => []
  | _ => map (quantile q vals) (linspace q)
  end.

(** [pd.qcut(x, q, labels=labels, duplicates='drop')].

    Duplicated edges are dropped; after that the labels must be one fewer
    than the edges that are left, else [ValueError]. *)
Definition qcut (x : list (option Q)) (q : nat) (labels : list Z)
  : result (list (option Z)) :=
  let bins := unique Qeq_bool (quantile_edges x q) in
  if negb (length labels =? length bins - 1)%nat then Raise labels_error
  else
    Ok (map (fun v =>
               match bin_id bins v with
               | Some id => nth_error labels (id - 1)
               | None => None
               end) x).

(** How many values of a column are below, or equal to, a value. *)
Definition count_lt (l : list Z) (v : Z) : nat :=
  length (filter (fun w => (w <? v)%Z) l).

Definition count_eq (l : list Z) (v : Z) : nat :=
  length (filter (fun w => (w =? v)%Z) l).

(** [Series.rank(method='first')] on a column without NaN: one plus the
    number of smaller values plus the number of equal values that appear
    earlier in the column. *)
Fixpoint rank_first_from (before after : list Z) : list nat :=
  match after with
  | [] => []
  | v :: t =>
      (1 + count_lt (before ++ after) v + count_eq before v)%nat
      :: rank_first_from (before ++ [v]) t
  end.

Definition rank_first (s : list Z) : list nat := rank_first_from [] s.

(** [Series.nlargest(n)] with [keep='first']: the [n] largest values in
    decreasing order, equal values in their order in the series. *)
Definition nlargest {K} (n : nat) (s : list (K * Q)) : list (K * Q) :=
  firstn n (sort (fun a b => Qle_bool (snd b) (snd a)) s).

(** [Series.value_counts()]: the count of each distinct non-null value,
    largest count first. *)
Definition value_counts {K} (eqb : K -> K -> bool) (s : list (option K))
  : list (K * nat) :=
  let vals := dropna s in
  sort (fun a b => (snd b <=? snd a)%nat)
       (map (fun k => (k, length (filter (eqb k) vals)))
            (unique eqb vals)).

End Pandas.

Import Pandas.

(** ** Data model *)

(** A numeric field of the CSV file as [pd.to_numeric] sees it: a number,
    an empty field, or text that is not a number. *)
Inductive num_field : Type :=
| NumEmpty
| Num (q : Q)
| NumText (s : string).

(** A date field of the CSV file as [pd.to_datetime] sees it: nanoseconds
    since the epoch, an empty field, or text that is not a date. *)
Inductive date_field : Type :=
| DateEmpty
| Date (ns : Z)
| DateText (s : string).

(** A cell of the [CustomerID] column.  [pd.read_csv] reads the column as
    numbers when every field of it is a number and as text otherwise, so the
    ids of one frame are all of one kind. *)
Inductive Id : Type :=
| IdNum (x : Qc)
| IdText (s : string).

Definition id_eqb (a b : Id) : bool :=
  match a, b with
  | IdNum x, IdNum y => Qeq_bool x y
  | IdText s, IdText t => String.eqb s t
  | _, _ => false
  end.

(** The order in which [groupby] sorts the ids: numbers by value, text
    lexicographically.  Ids of two kinds do not meet in one column; numbers
    are put first. *)
Definition id_leb (a b : Id) : bool :=
  match a, b with
  | IdNum x, IdNum y => Qle_bool x y
  | IdText s, IdText t => String.leb s t
  | IdNum _, IdText _ => true
  | IdText _, IdNum _ => false
  end.

Definition id_ltb (a b : Id) : bool :=
  match a, b with
  | IdNum x, IdNum y => Qltb x y
  | IdText s, IdText t => String.ltb s t
  | IdNum _, IdText _ => true
  | IdText _, IdNum _ => false
  end.

Record RawRow : Type := {
  raw_InvoiceNo : option string;
  raw_StockCode : option string;
  raw_Description : option string;
  raw_Quantity : num_field;
  raw_InvoiceDate : date_field;
  raw_UnitPrice : num_field;
  raw_CustomerID : option Id;
  raw_Country : option string;
  raw_Category : option string;
  raw_Rating : num_field
}.

(** What [pd.read_csv] gives: an exception, or a frame with its column names
    and rows.  The cells of a column that is not in [columns] are unused. *)
Inductive Source : Type :=
| Unreadable
| Csv (columns : list string) (rows : list RawRow).

(** One row of the frame [df].  [Revenue] is filled at line 37 and [Segment]
    by the merge at line 103; both are null before. *)
Record Row : Type := {
  InvoiceNo : option string;
  StockCode : option string;
  Description : option string;
  Quantity : option Q;
  InvoiceDate : option Z;
  UnitPrice : option Q;
  CustomerID : option Id;
  Country : option string;
  Category : option string;
  Rating : option Q;
  Revenue : option Q;
  Segment : option string
}.

Definition DataFrame : Type := list Row.

(** The draws of [np.random]: [rand_int site i] is the [i]-th integer drawn
    at call site [site], [rand_unit site i] the [i]-th float in [0,1). *)
Record Rng : Type := {
  rand_int : nat -> nat -> nat;
  rand_unit : nat -> nat -> Q
}.

Definition choice (g : Rng) (site : nat) (l : list string) (i : nat) : string :=
  nth (rand_int g site i mod length l) l ""%string.

(** [np.random.uniform(lo, hi)], without the rounding of the float. *)
Definition uniform (g : Rng) (site : nat) (lo hi : Q) (i : nat) : Q :=
  (lo + (hi - lo) * rand_unit g site i)%Q.

Definition randint (g : Rng) (site : nat) (lo hi : nat) (i : nat) : nat :=
  lo + rand_int g site i mod (hi - lo).

(** What the script prints while loading. *)
Inductive message : Type :=
| MsgColumns (cols : list string)
| MsgPrepared (rows : nat)
| MsgPeriod (first last : option Z)
| MsgTotal (revenue : Q)
| MsgError (e : exn)
| MsgExample.

(** ** Loading and cleaning (lines 24-75) *)

Definition pd_to_numeric (c : num_field) : option Q :=
  match c with
  | Num q => Some q
  | NumEmpty | NumText _ => None
  end.

Definition pd_to_datetime (c : date_field) : option Z :=
  match c with
  | Date t => Some t
  | DateEmpty | DateText _ => None
  end.

Definition has_column (cols : list string) (c : string) : bool :=
  mem String.eqb c cols.

(** [df[c]] raises [KeyError] when the column is missing. *)
Definition require_column (cols : list string) (c : string) : result unit :=
  if has_column cols c then Ok tt else Raise (KeyError c).

(** Lines 32-37: the three coercions and the revenue. *)
Definition coerce (r : RawRow) : Row :=
  let quantity := pd_to_numeric (raw_Quantity r) in
  let unit_price := pd_to_numeric (raw_UnitPrice r) in
  {| InvoiceNo := raw_InvoiceNo r;
     StockCode := raw_StockCode r;
     Description := raw_Description r;
     Quantity := quantity;
     InvoiceDate := pd_to_datetime (raw_InvoiceDate r);
     UnitPrice := unit_price;
     CustomerID := raw_CustomerID r;
     Country := raw_Country r;
     Category := raw_Category r;
     Rating := pd_to_numeric (raw_Rating r);
     Revenue := mul_cell quantity unit_price;
     Segment := None |}.

(** Line 40: [df.dropna(subset=['InvoiceNo', 'CustomerID', 'Revenue'])]. *)
Definition dropna_subset (r : Row) : bool :=
  notna (InvoiceNo r) && notna (CustomerID r) && notna (Revenue r).

(** Lines 40-42. *)
Definition clean (df : DataFrame) : DataFrame :=
  filter (fun r => gt_cell (UnitPrice r) 0)
    (filter (fun r => gt_cell (Quantity r) 0)
       (filter dropna_subset df)).

Definition categories_stub : list string :=
  ["Electronics"; "Fashion"; "Books"; "Home"; "Toys"]%string.

Definition set_Category (c : option string) (r : Row) : Row :=
  {| InvoiceNo := InvoiceNo r; StockCode := StockCode r;
     Description := Description r; Quantity := Quantity r;
     InvoiceDate := InvoiceDate r; UnitPrice := UnitPrice r;
     CustomerID := CustomerID r; Country := Country r;
     Category := c; Rating := Rating r; Revenue := Revenue r;
     Segment := Segment r |}.

Definition set_Rating (x : option Q) (r : Row) : Row :=
  {| InvoiceNo := InvoiceNo r; StockCode := StockCode r;
     Description := Description r; Quantity := Quantity r;
     InvoiceDate := InvoiceDate r; UnitPrice := UnitPrice r;
     CustomerID := CustomerID r; Country := Country r;
     Category := Category r; Rating := x; Revenue := Revenue r;
     Segment := Segment r |}.

Definition set_Segment (s : option string) (r : Row) : Row :=
  {| InvoiceNo := InvoiceNo r; StockCode := StockCode r;
     Description := Description r; Quantity := Quantity r;
     InvoiceDate := InvoiceDate r; UnitPrice := UnitPrice r;
     CustomerID := CustomerID r; Country := Country r;
     Category := Category r; Rating := Rating r; Revenue := Revenue r;
     Segment := s |}.

(** [df[col] = values], row by row. *)
Fixpoint assign {A} (set : A -> Row -> Row) (values : nat -> A) (i : nat)
  (df : DataFrame) : DataFrame :=
  match df with
  | [] => []
  | r :: t => set (values i) r :: assign set values (S i) t
  end.

(** Lines 45-47. *)
Definition stub_category (g : Rng) (cols : list string) (df : DataFrame)
  : DataFrame :=
  if has_column cols "Category" then df
  else assign set_Category (fun i => Some (choice g 0 categories_stub i)) 0 df.

(** Lines 50-51. *)
Definition stub_rating (g : Rng) (cols : list string) (df : DataFrame)
  : DataFrame :=
  if has_column cols "Rating" then df
  else assign set_Rating (fun i => Some (uniform g 1 3 5 i)) 0 df.

(** [Series.min()] and [Series.max()] of a timestamp column; NaT is skipped
    and the result is NaT when nothing is left. *)
Definition date_max (s : list (option Z)) : option Z :=
  match dropna s with
  | [] => None
  | t :: l => Some (fold_right Z.max t l)
  end.

Definition date_min (s : list (option Z)) : option Z :=
  match dropna s with
  | [] => None
  | t :: l => Some (fold_right Z.min t l)
  end.

(** The body of the [try] (lines 26-55): the frame, or the exception, with
    what was printed up to there. *)
Definition prepare (g : Rng) (src : Source)
  : list message * result DataFrame :=
  match src with
  | Unreadable => ([], Raise FileNotFoundError)
  | Csv cols rows =>
      let log := [MsgColumns cols] in
      match
        (_ <- require_column cols "Quantity" ;;
         _ <- require_column cols "UnitPrice" ;;
         _ <- require_column cols "InvoiceDate" ;;
         _ <- require_column cols "InvoiceNo" ;;
         _ <- require_column cols "CustomerID" ;;
         Ok (stub_rating g cols (stub_category g cols (clean (map coerce rows)))))
      with
      | Raise e => (log, Raise e)
      | Ok df =>
          (log ++ [MsgPrepared (length df);
                   MsgPeriod (date_min (map InvoiceDate df))
                             (date_max (map InvoiceDate df));
                   MsgTotal (Qsum (dropna (map Revenue df)))],
           Ok df)
      end
  end.

Definition ns_per_day : Z := 86400000000000.

(** 2023-01-01 is day 19358 of the epoch. *)
Definition example_start : Z := 19358 * ns_per_day.

Definition example_row (g : Rng) (i : nat) : Row :=
  let quantity := inject_Z (Z.of_nat (randint g 2 1 10 i)) in
  let unit_price := uniform g 3 10 500 i in
  {| InvoiceDate := Some (example_start + Z.of_nat i * ns_per_day)%Z;
     InvoiceNo := Some ("INV" ++ str_nat i)%string;
     StockCode := Some ("STK" ++ str_nat (i mod 100))%string;
     Description := Some ("Product " ++ str_nat (i mod 50))%string;
     Quantity := Some quantity;
     UnitPrice := Some unit_price;
     CustomerID := Some (IdText ("CUST" ++ str_nat (randint g 4 1 101 i)));
     Country :=
       Some (choice g 5 ["USA"; "UK"; "France"; "Germany"; "Spain"]%string i);
     Category := Some (choice g 6 categories_stub i);
     Rating := Some (uniform g 7 3 5 i);
     Revenue := Some (quantity * unit_price)%Q;
     Segment := None |}.

(** Lines 62-75: the example frame of the [except] branch. *)
Definition example_data (g : Rng) : DataFrame :=
  map (example_row g) (seq 0 1000).

(** Lines 24-75: [try] the preparation, [except] fall back to the example
    frame.  The outcome is what the rest of the script runs on. *)
Definition load (g : Rng) (src : Source) : list message * result DataFrame :=
  let (log, body) := prepare g src in
  match body with
  | Ok df => (log, Ok df)
  | Raise e => (log ++ [MsgError e; MsgExample], Ok (example_data g))
  end.

(** ** The RFM table (lines 80-101) *)

(** The groups of [df.groupby(key)]: the distinct non-null keys, sorted. *)
Definition groupby_keys {K} (eqb leb : K -> K -> bool) (key : Row -> option K)
  (df : DataFrame) : list K :=
  sort leb (unique eqb (dropna (map key df))).

Definition get_group {K} (eqb : K -> K -> bool) (key : Row -> option K)
  (df : DataFrame) (k : K) : DataFrame :=
  filter (fun r => opt_eqb eqb (key r) (Some k)) df.

(** Line 82: [(current_date - x.max()).days]; NaT gives NaN. *)
Definition recency (current_date : option Z) (x : list (option Z))
  : option Z :=
  match current_date, date_max x with
  | Some today, Some last => Some ((today - last) / ns_per_day)%Z
  | _, _ => None
  end.

(** One row of [rfm] after line 85. *)
Record Metrics : Type := {
  customer : Id;
  R : option Z;
  F : nat;
  M : Q
}.

(** Lines 80-85. *)
Definition rfm_metrics (df : DataFrame) : list Metrics :=
  let current_date := date_max (map InvoiceDate df) in
  map (fun c =>
         let x := get_group id_eqb CustomerID df c in
         {| customer := c;
            R := recency current_date (map InvoiceDate x);
            F := nunique String.eqb (map InvoiceNo x);
            M := Qsum (dropna (map Revenue x)) |})
      (groupby_keys id_eqb id_leb CustomerID df).

(** Line 88. *)
Definition R_Score (r : list (option Z)) : result (list (option Z)) :=
  qcut (map (option_map inject_Z) r) 4 [4; 3; 2; 1]%Z.

(** [rfm['F'].rank(method='first')] as a float column. *)
Definition F_rank (f : list nat) : list (option Q) :=
  map (fun k => Some (inject_Z (Z.of_nat k))) (rank_first (map Z.of_nat f)).

(** Line 89. *)
Definition F_Score (f : list nat) : result (list (option Z)) :=
  qcut (F_rank f) 4 [1; 2; 3; 4]%Z.

(** Line 90. *)
Definition M_Score (m : list Q) : result (list (option Z)) :=
  qcut (map Some m) 4 [1; 2; 3; 4]%Z.

(** [astype(str)] of a score: the label; a missing score is written
    ["nan"], as pandas 2 does. *)
Definition astype_str (s : option Z) : string :=
  match s with
  | Some z => str_Z z
  | None => "nan"
  end.

(** Line 92. *)
Definition RFM_Score (r f m : option Z) : string :=
  (astype_str r ++ astype_str f ++ astype_str m)%string.

(** Lines 95-100. *)
Definition segment_map : list (string * string) :=
  [("444", "Champions"); ("443", "Champions"); ("434", "Champions");
   ("433", "Champions");
   ("344", "Loyal Customers"); ("343", "Loyal Customers");
   ("334", "Loyal Customers");
   ("333", "Loyal Customers"); ("244", "Potential"); ("144", "New");
   ("111", "Lost");
   ("112", "Inactive"); ("221", "At Risk"); ("212", "At Risk")]%string.

(** [d.get(k)] on a dict written as its items. *)
Fixpoint dict_get (d : list (string * string)) (k : string) : option string :=
  match d with
  | [] => None
  | (k', v) :: t => if String.eqb k k' then Some v else dict_get t k
  end.

(** Line 101: [.map(segment_map).fillna('Others')]. *)
Definition segment_of (code : string) : string :=
  match dict_get segment_map code with
  | Some s => s
  | None => "Others"%string
  end.

(** One row of [rfm] after line 101. *)
Record Scored : Type := {
  metrics : Metrics;
  r_score : option Z;
  f_score : option Z;
  m_score : option Z;
  rfm_score : string;
  segment : string
}.

Fixpoint zip_scores (ms : list Metrics) (rs fs mss : list (option Z))
  : list Scored :=
  match ms, rs, fs, mss with
  | m :: ms', r :: rs', f :: fs', s :: mss' =>
      {| metrics := m; r_score := r; f_score := f; m_score := s;
         rfm_score := RFM_Score r f s;
         segment := segment_of (RFM_Score r f s) |}
      :: zip_scores ms' rs' fs' mss'
  | _, _, _, _ => []
  end.

(** Lines 80-101: the three [qcut] run in this order and the first
    exception ends the script. *)
Definition compute_rfm (df : DataFrame) : result (list Scored) :=
  let rfm := rfm_metrics df in
  rs <- R_Score (map R rfm) ;;
  fs <- F_Score (map F rfm) ;;
  ms <- M_Score (map M rfm) ;;
  Ok (zip_scores rfm rs fs ms).

(** Line 103: left merge of the segment on [CustomerID]. *)
Definition merge_segment (df : DataFrame) (rfm : list Scored) : DataFrame :=
  map (fun r =>
         set_Segment
           match CustomerID r with
           | Some c =>
               option_map segment
                 (find (fun s => id_eqb (customer (metrics s)) c) rfm)
           | None => None
           end r) df.

(** Lines 24-103: what the module leaves in [df] when it is imported. *)
Definition startup (g : Rng) (src : Source) : list message * result DataFrame :=
  let (log, loaded) := load g src in
  (log, df <- loaded ;; rfm <- compute_rfm df ;; Ok (merge_segment df rfm)).

(** ** The callback (lines 329-382) *)

(** Month of a timestamp as a period ordinal (months since 1970-01), by the
    proleptic Gregorian calendar. *)
Definition to_period_M (ns : Z) : Z :=
  let z := (ns / ns_per_day + 719468)%Z in
  let era := (z / 146097)%Z in
  let doe := (z - era * 146097)%Z in
  let yoe := ((doe - doe / 1460 + doe / 36524 - doe / 146096) / 365)%Z in
  let doy := (doe - (365 * yoe + yoe / 4 - yoe / 100))%Z in
  let mp := ((5 * doy + 2) / 153)%Z in
  let m := (if mp <? 10 then mp + 3 else mp - 9)%Z in
  let y := (yoe + era * 400 + (if m <=? 2 then 1 else 0))%Z in
  ((y - 1970) * 12 + (m - 1))%Z.

(** [df.groupby(key)['Revenue'].sum()]: one entry per distinct non-null key,
    in key order. *)
Definition groupby_revenue {K} (eqb leb : K -> K -> bool)
  (key : Row -> option K) (df : DataFrame) : list (K * Q) :=
  map (fun k =>
         (k, Qsum (dropna (map Revenue
                (filter (fun r => opt_eqb eqb (key r) (Some k)) df)))))
      (sort leb (unique eqb (dropna (map key df)))).

(** Python truth value of a dropdown value: [None] and [[]] are false. *)
Definition truthy {A} (v : option (list A)) : bool :=
  match v with
  | Some (_ :: _) => true
  | _ => false
  end.

(** [Series.isin(values)]. *)
Definition isin (c : option string) (values : list string) : bool :=
  match c with
  | Some s => mem String.eqb s values
  | None => false
  end.

(** [df[col] >= bound] and [df[col] <= bound]; False on NaT. *)
Definition ge_date (c : option Z) (bound : Z) : bool :=
  match c with
  | Some t => (bound <=? t)%Z
  | None => false
  end.

Definition le_date (c : option Z) (bound : Z) : bool :=
  match c with
  | Some t => (t <=? bound)%Z
  | None => false
  end.

(** Lines 331-341.  A date picker value is [None] or a date. *)
Definition apply_filters (df : DataFrame) (start_date end_date : option Z)
  (categories countries : option (list string)) : DataFrame :=
  let filtered_df := df in
  let filtered_df :=
    match start_date, end_date with
    | Some s, Some e =>
        filter (fun r => ge_date (InvoiceDate r) s && le_date (InvoiceDate r) e)
               filtered_df
    | _, _ => filtered_df
    end in
  let filtered_df :=
    if truthy categories
    then filter (fun r => isin (Category r) (match categories with
                                             | Some l => l
                                             | None => []
                                             end)) filtered_df
    else filtered_df in
  if truthy countries
  then filter (fun r => isin (Country r) (match countries with
                                          | Some l => l
                                          | None => []
                                          end)) filtered_df
  else filtered_df.

(** The five series the figures are drawn from. *)
Record Charts : Type := {
  monthly : list (Z * Q);
  segments : list (string * nat);
  top_prod : list (string * Q);
  countries_data : list (string * Q);
  category_data : list (string * Q)
}.

(** Lines 344-376. *)
Definition aggregates (filtered_df : DataFrame) : Charts :=
  {| monthly :=
       groupby_revenue Z.eqb Z.leb
         (fun r => option_map to_period_M (InvoiceDate r)) filtered_df;
     segments := value_counts String.eqb (map Segment filtered_df);
     top_prod :=
       nlargest 10 (groupby_revenue String.eqb String.leb Description
                      filtered_df);
     countries_data :=
       nlargest 5 (groupby_revenue String.eqb String.leb Country filtered_df);
     category_data :=
       groupby_revenue String.eqb String.leb Category filtered_df |}.

(** What [px.bar] raises at lines 361 and 369 on an empty series. *)
Definition columns_error : exn :=
  ValueError
    "Cannot accept list of column references or list of columns for both `x` and `y`.".

(** [px.bar(x=s.values, y=s.index, orientation='h', ...)] (lines 361 and
    369).  Plotly takes an empty [x] and an empty [y] for two lists of column
    references, which it refuses; with entries, [x] is one column of numbers
    and [y] one column of names. *)
Definition px_bar {K} (s : list (K * Q)) : result (list (K * Q)) :=
  match s with
  | [] => Raise columns_error
  | _ :: _ => Ok s
  end.

(** Lines 329-382.  The figures are made in the order of the script; the
    first and the last two take any series ([px.bar] on the columns of a
    frame, [px.pie]), the two horizontal bar charts raise on an empty one.
    The frame has the columns [Description] and [Country]. *)
Definition update_charts (df : DataFrame) (start_date end_date : option Z)
  (categories countries : option (list string)) : result Charts :=
  let filtered_df :=
    apply_filters df start_date end_date categories countries in
  let charts := aggregates filtered_df in
  fig3 <- px_bar (top_prod charts) ;;
  fig4 <- px_bar (countries_data charts) ;;
  Ok {| monthly := monthly charts;
        segments := segments charts;
        top_prod := fig3;
        countries_data := fig4;
        category_data := category_data charts |}.

(** ** KPIs (lines 109-114) *)

(** [Series.mean()]: NaN is skipped, the mean of nothing is NaN. *)
Definition mean (s : list (option Q)) : option Q :=
  match dropna s with
  | [] => None
  | vals => Some (Qsum vals / inject_Z (Z.of_nat (length vals)))%Q
  end.

Definition total_revenue (df : DataFrame) : Q :=
  Qsum (dropna (map Revenue df)).

Definition total_customers (df : DataFrame) : nat :=
  nunique id_eqb (map CustomerID df).

Definition total_orders (df : DataFrame) : nat :=
  nunique String.eqb (map InvoiceNo df).

(** Line 112: the division is guarded by [total_orders > 0]. *)
Definition avg_order_value (df : DataFrame) : Q :=
  if (0 <? total_orders df)%nat
  then (total_revenue df / inject_Z (Z.of_nat (total_orders df)))%Q
  else 0%Q.

Definition total_products (df : DataFrame) : Q :=
  Qsum (dropna (map Quantity df)).

Definition avg_rating (df : DataFrame) : option Q := mean (map Rating df).

(** ** Filter widgets of the layout (lines 135-162) *)

(** The initial dates of the date picker. *)
Definition picker_start_date (df : DataFrame) : option Z :=
  date_min (map InvoiceDate df).

Definition picker_end_date (df : DataFrame) : option Z :=
  date_max (map InvoiceDate df).

(** What [sorted(df[col].unique())] gives for the options of a dropdown:
    the distinct values in ascending order; a NaN among strings cannot be
    compared and [sorted] raises [TypeError]; NaN alone is a single option. *)
Inductive Dropdown : Type :=
| Options (values : list string)
| OptionNaN
| OptionsTypeError.

Definition dropdown_options (col : list (option string)) : Dropdown :=
  let present := unique String.eqb (dropna col) in
  if existsb isna col
  then match present with
       | [] => OptionNaN
       | _ :: _ => OptionsTypeError
       end
  else Options (sort String.leb present).

(** ** Notions of the specification *)

(** Section 4.3 of the specification, as a table on the three digits. *)
Definition spec_segment (r f m : Z) : string :=
  match r, f, m with
  | 4, 4, 4 | 4, 4, 3 | 4, 3, 4 | 4, 3, 3 => "Champions"
  | 3, 4, 4 | 3, 4, 3 | 3, 3, 4 | 3, 3, 3 => "Loyal Customers"
  | 2, 4, 4 => "Potential"
  | 1, 4, 4 => "New"
  | 1, 1, 1 => "Lost"
  | 1, 1, 2 => "Inactive"
  | 2, 2, 1 | 2, 1, 2 => "At Risk"
  | _, _, _ => "Others"
  end%Z%string.

Definition scores_1_4 : list Z := [1; 2; 3; 4]%Z.

(** The customers of a ledger in the order they are first seen in it. *)
Definition first_seen (df : DataFrame) : list Id :=
  unique id_eqb (dropna (map CustomerID df)).

(** Strictly and weakly decreasing revenue of a ranking. *)
Definition strictly_descending {K} (s : list (K * Q)) : Prop :=
  Sorted (fun a b => (snd b < snd a)%Q) s.

Definition descending {K} (s : list (K * Q)) : Prop :=
  Sorted (fun a b => (snd b <= snd a)%Q) s.

Definition empty_charts : Charts :=
  {| monthly := []; segments := []; top_prod := []; countries_data := [];
     category_data := [] |}.

(** The quartile of the rank [rho] among the ranks [1..n]: one more than
    the number of inner quartile points [1 + (n-1)k/4], [k = 1, 2, 3], that
    are strictly below the rank. *)
Definition quartile_of_rank (n rho : nat) : Z :=
  1 + Z.of_nat (length (filter (fun k => (4 + (n - 1) * k <? 4 * rho)%nat)
                               [1; 2; 3]%nat)).

(** The columns the preparation reads. *)
Definition required_columns : list string :=
  ["Quantity"; "UnitPrice"; "InvoiceDate"; "InvoiceNo"; "CustomerID"]%string.

(** The invariant of a retained row as the specification words it. *)
Definition spec_retained (r : Row) : Prop :=
  InvoiceNo r <> None /\ CustomerID r <> None /\
  (exists q, Quantity r = Some q /\ (0 < q)%Q) /\
  (exists p, UnitPrice r = Some p /\ (0 < p)%Q) /\
  InvoiceDate r <> None.

(** The same without the date: what the cleaning step guarantees. *)
Definition retained (r : Row) : Prop :=
  InvoiceNo r <> None /\ CustomerID r <> None /\
  (exists q, Quantity r = Some q /\ (0 < q)%Q) /\
  (exists p, UnitPrice r = Some p /\ (0 < p)%Q).

(** ** Sample inputs *)

Definition all_columns : list string :=
  ["InvoiceNo"; "StockCode"; "Description"; "Quantity"; "InvoiceDate";
   "UnitPrice"; "CustomerID"; "Country"; "Category"; "Rating"]%string.

Definition rng0 : Rng :=
  {| rand_int := fun _ _ => 0%nat; rand_unit := fun _ _ => 0%Q |}.

Definition on_day (d : Z) : date_field := Date (d * ns_per_day).

Definition sale_to (customer : Id) (invoice product : string)
  (date : date_field) (quantity unit_price : num_field) : RawRow :=
  {| raw_InvoiceNo := Some invoice;
     raw_StockCode := Some "S1"%string;
     raw_Description := Some product;
     raw_Quantity := quantity;
     raw_InvoiceDate := date;
     raw_UnitPrice := unit_price;
     raw_CustomerID := Some customer;
     raw_Country := Some "UK"%string;
     raw_Category := Some "Books"%string;
     raw_Rating := Num 4 |}.

Definition sale (invoice customer product : string) (date : date_field)
  (quantity unit_price : num_field) : RawRow :=
  sale_to (IdText customer) invoice product date quantity unit_price.

(** The frame the script holds once it has started on a source, empty when
    the start ends in an exception. *)
Definition started (src : Source) : DataFrame :=
  match snd (startup rng0 src) with
  | Ok df => df
  | Raise _ => []
  end.

(** The frame the load step leaves for a source. *)
Definition loaded (src : Source) : DataFrame :=
  match snd (load rng0 src) with
  | Ok df => df
  | Raise _ => []
  end.

(** Two customers, two of the three products with the same revenue. *)
Definition ledger_ties : Source :=
  Csv all_columns
    [sale "i1" "c1" "lamp" (on_day 0) (Num 1) (Num 10);
     sale "i2" "c2" "mug" (on_day 8) (Num 2) (Num 5);
     sale "i3" "c2" "pen" (on_day 8) (Num 1) (Num 3)]%string.

(** Customer B buys first, customer A later; one invoice each. *)
Definition ledger_B_before_A : Source :=
  Csv all_columns
    [sale "i1" "B" "lamp" (on_day 0) (Num 1) (Num 10);
     sale "i2" "A" "mug" (on_day 8) (Num 1) (Num 20)]%string.

(** Four customers, three of them buying on the last day. *)
Definition ledger_same_day : Source :=
  Csv all_columns
    [sale "i1" "c1" "lamp" (on_day 0) (Num 1) (Num 10);
     sale "i2" "c2" "mug" (on_day 10) (Num 1) (Num 20);
     sale "i3" "c3" "mug" (on_day 10) (Num 2) (Num 20);
     sale "i4" "c4" "pen" (on_day 10) (Num 3) (Num 2)]%string.

(** Customer 10 buys first, customer 9 later, in a file whose id column is
    numeric. *)
Definition ledger_numeric_ids : Source :=
  Csv all_columns
    [sale_to (IdNum (Q2Qc 10)) "i1" "lamp" (on_day 0) (Num 1) (Num 10);
     sale_to (IdNum (Q2Qc 9)) "i2" "mug" (on_day 8) (Num 1) (Num 20)]%string.

(** One valid sale whose date field does not parse. *)
Definition ledger_bad_date : Source :=
  Csv all_columns
    [sale "i1" "c1" "lamp" (DateText "soon") (Num 1) (Num 10)]%string.

(** A readable file whose only row has a negative quantity. *)
Definition ledger_no_valid_row : Source :=
  Csv all_columns
    [sale "i1" "c1" "lamp" (on_day 0) (Num (-1)) (Num 10)]%string.


(** The example of section 8 of the specification: customer C1 has three
    orders of 100, 200 and 300 in the last week, customer C2 one order of 10
    a year before. *)
Definition ledger_spec_example : Source :=
  Csv all_columns
    [sale "i1" "C2" "pen" (on_day 0) (Num 1) (Num 10);
     sale "i2" "C1" "lamp" (on_day 360) (Num 1) (Num 100);
     sale "i3" "C1" "desk" (on_day 362) (Num 2) (Num 100);
     sale "i4" "C1" "sofa" (on_day 365) (Num 1) (Num 300)]%string.

(** ** Notions used in the proofs *)

(** The relation of a boolean comparison. *)
Definition rel_of {A} (leb : A -> A -> bool) (a b : A) : Prop := leb a b = true.

(** No element is equal to one in [seen] or to an earlier one. *)
Fixpoint distinct_from {A} (eqb : A -> A -> bool) (seen l : list A) : Prop :=
  match l with
  | [] => True
  | x :: t => mem eqb x seen = false /\ distinct_from eqb (x :: seen) t
  end.

(** A rank as a value of the float column. *)
Definition rank_value (k : nat) : Q := inject_Z (Z.of_nat k).

(** Quartile [k] of the ranks 1..n is [1 + (n-1)k/4]. *)
Definition rank_edge (n k : nat) : Q := Z.of_nat (4 + (n - 1) * k) # 4.

(** Quartile [k] of the ranks of [n] customers. *)
Definition rank_quantile (n k : nat) : Q :=
  quantile 4 (map rank_value (seq 1 n)) k.

(** The bins of the rank column of [n] customers. *)
Definition rank_bins (n : nat) : list Q :=
  map (rank_quantile n) [0; 1; 2; 3; 4]%nat.

(** The score of the customer of rank [rho] among [n]. *)
Definition rank_score (n : nat) (rho : nat) : option Z :=
  match bin_id (rank_bins n) (Some (rank_value rho)) with
  | Some id => nth_error [1; 2; 3; 4]%Z (id - 1)
  | None => None
  end.

(** ** Notions used in the further properties *)

(** The columns of a file without the two optional ones. *)
Definition columns_without_stubs : list string :=
  ["InvoiceNo"; "StockCode"; "Description"; "Quantity"; "InvoiceDate";
   "UnitPrice"; "CustomerID"; "Country"]%string.

(** Two sales in a file without Category and Rating columns. *)
Definition ledger_without_stubs : Source :=
  Csv columns_without_stubs
    [sale "i1" "c1" "lamp" (on_day 0) (Num 1) (Num 10);
     sale "i2" "c2" "mug" (on_day 8) (Num 2) (Num 5)]%string.

(** The scores of one row of a scored table. *)
Definition well_scored (a : Scored) : Prop :=
  (exists f, f_score a = Some f /\ (1 <= f <= 4)%Z)
  /\ (exists m, m_score a = Some m /\ (1 <= m <= 4)%Z)
  /\ match R (metrics a) with
     | Some _ => exists r, r_score a = Some r /\ (1 <= r <= 4)%Z
     | None => r_score a = None /\ segment a = "Others"%string
     end.

(** The scored table of the example of section 8. *)
Definition scored_example : list Scored :=
  match compute_rfm (loaded ledger_spec_example) with
  | Ok rfm => rfm
  | Raise _ => []
  end.

(** The eight segment names. *)
Definition segment_names : list string :=
  ["Champions"; "Loyal Customers"; "Potential"; "New"; "Lost"; "Inactive";
   "At Risk"; "Others"]%string.

(** One customer with three orders. *)
Definition ledger_one_customer : Source :=
  Csv all_columns
    [sale "i1" "c1" "lamp" (on_day 0) (Num 1) (Num 10);
     sale "i2" "c1" "mug" (on_day 8) (Num 2) (Num 5);
     sale "i3" "c1" "pen" (on_day 9) (Num 1) (Num 3)]%string.

(** What each filter of the callback asks of a row. *)
Definition passes_dates (start_date end_date : option Z) (r : Row) : Prop :=
  match start_date, end_date with
  | Some s, Some e => exists t, InvoiceDate r = Some t /\ (s <= t <= e)%Z
  | _, _ => True
  end.

Definition passes_choice (choice : option (list string)) (cell : option string)
  : Prop :=
  match choice with
  | Some (c :: l) => exists x, cell = Some x /\ In x (c :: l)
  | _ => True
  end.

(** * Properties *)

(** ** Sorting *)

Section SortFacts.
Variable A : Type.
Variable leb : A -> A -> bool.
Hypothesis leb_total : forall a b, leb a b = true \/ leb b a = true.

Lemma insert_perm (x : A) (l : list A) :
  Permutation (insert leb x l) (x :: l).
Proof.
  induction l as [|y t IH]; simpl.
  - apply Permutation_refl.
  - destruct (leb x y).
    + apply Permutation_refl.
    + apply Permutation_trans with (y :: x :: t).
      * apply perm_skip. exact IH.
      * apply perm_swap.
Qed.

Lemma sort_perm (l : list A) : Permutation (sort leb l) l.
Proof.
  induction l as [|x t IH]; simpl.
  - apply Permutation_refl.
  - apply Permutation_trans with (x :: sort leb t).
    + apply insert_perm.
    + apply perm_skip. exact IH.
Qed.

Lemma sort_length (l : list A) : length (sort leb l) = length l.
Proof. apply Permutation_length, sort_perm. Qed.

Lemma sort_in (l : list A) (x : A) : In x (sort leb l) <-> In x l.
Proof.
  split; apply Permutation_in.
  - apply sort_perm.
  - apply Permutation_sym, sort_perm.
Qed.

Lemma insert_hd (x a : A) (l : list A) :
  rel_of leb a x -> HdRel (rel_of leb) a l -> HdRel (rel_of leb) a (insert leb x l).
Proof.
  intros Hax Hl. destruct l as [|y t]; simpl.
  - constructor. exact Hax.
  - destruct (leb x y); constructor.
    + exact Hax.
    + inversion Hl. assumption.
Qed.

Lemma insert_sorted (x : A) (l : list A) :
  Sorted (rel_of leb) l -> Sorted (rel_of leb) (insert leb x l).
Proof.
  induction 1 as [|y t Ht IH Hy]; simpl.
  - repeat constructor.
  - destruct (leb x y) eqn:E.
    + constructor.
      * constructor; assumption.
      * constructor. exact E.
    + constructor.
      * exact IH.
      * apply insert_hd; [|exact Hy].
        destruct (leb_total x y) as [H|H]; [congruence|exact H].
Qed.

Lemma sort_sorted (l : list A) : Sorted (rel_of leb) (sort leb l).
Proof.
  induction l as [|x t IH]; simpl.
  - constructor.
  - apply insert_sorted. exact IH.
Qed.
End SortFacts.

Lemma Sorted_firstn (A : Type) (R : A -> A -> Prop) (n : nat) (l : list A) :
  Sorted R l -> Sorted R (firstn n l).
Proof.
  intros H. revert n.
  induction H as [|a l Hl IH Ha]; intros [|n]; simpl; try constructor.
  - apply IH.
  - destruct Ha as [|b l' Hab]; destruct n; simpl; constructor. exact Hab.
Qed.

Lemma Qle_bool_total (a b : Q) : Qle_bool a b = true \/ Qle_bool b a = true.
Proof.
  rewrite !Qle_bool_iff.
  destruct (Qlt_le_dec a b) as [H|H].
  - left. apply Qlt_le_weak. exact H.
  - right. exact H.
Qed.

Lemma Qltb_lt (a b : Q) : Qltb a b = true <-> (a < b)%Q.
Proof.
  unfold Qltb. rewrite negb_true_iff.
  split.
  - intros H. apply Qnot_le_lt. intros Hle.
    apply Qle_bool_iff in Hle. congruence.
  - intros H. destruct (Qle_bool b a) eqn:E; [|reflexivity].
    apply Qle_bool_iff in E. exfalso. apply (Qlt_not_le _ _ H E).
Qed.

Lemma Qltb_false (a b : Q) : Qltb a b = false <-> (b <= a)%Q.
Proof.
  unfold Qltb. rewrite negb_false_iff. apply Qle_bool_iff.
Qed.

(** [nlargest] returns at most [n] entries in weakly decreasing order. *)
Lemma nlargest_length (K : Type) (n : nat) (s : list (K * Q)) :
  (length (nlargest n s) <= n)%nat.
Proof. unfold nlargest. apply firstn_le_length. Qed.

Lemma nlargest_descending (K : Type) (n : nat) (s : list (K * Q)) :
  descending (nlargest n s).
Proof.
  unfold nlargest, descending. apply Sorted_firstn.
  pose proof (sort_sorted (fun a b : K * Q => Qle_bool (snd b) (snd a))) as H.
  eapply Sorted_ind with (P := fun l => Sorted _ l);
    [constructor | | apply H; intros a b; apply Qle_bool_total].
  intros a l Hl IH Ha. constructor; [exact IH|].
  destruct Ha as [|b l' Hab]; constructor.
  apply Qle_bool_iff. exact Hab.
Qed.

(** ** The model on known values *)

Example to_period_M_known :
  map (fun day => to_period_M (day * ns_per_day)) [0; 10956; 10957; 19358;
                                                   19782; 19783]%Z
  = [0; 359; 360; 636; 649; 650]%Z.
Proof. vm_compute. reflexivity. Qed.

Example qcut_quartiles_known :
  qcut (map (fun z => Some (inject_Z z)) [5; 1; 9; 3; 7; 2; 8]%Z) 4
       [1; 2; 3; 4]%Z
  = Ok (map Some [2; 1; 4; 2; 3; 1; 4]%Z).
Proof. vm_compute. reflexivity. Qed.

Example rank_first_known : rank_first [3; 1; 3; 1; 2]%Z = [4; 1; 5; 2; 3]%nat.
Proof. vm_compute. reflexivity. Qed.

Example quartile_of_rank_known :
  map (quartile_of_rank 7) [1; 2; 3; 4; 5; 6; 7]%nat = [1; 1; 2; 2; 3; 4; 4]%Z.
Proof. vm_compute. reflexivity. Qed.

(** Section 8 of the specification: C1 gets monetary score 4 and C2 score 1,
    and C1 gets the higher recency score. *)
Example spec_example_scores :
  option_map
    (map (fun s => (customer (metrics s), R (metrics s), F (metrics s),
                    rfm_score s, segment s)))
    match compute_rfm (loaded ledger_spec_example) with
    | Ok rfm => Some rfm
    | Raise _ => None
    end
  = Some [(IdText "C1", Some 0%Z, 3%nat, "444", "Champions");
          (IdText "C2", Some 365%Z, 1%nat, "111", "Lost")]%string.
Proof. vm_compute. reflexivity. Qed.

(** ** Segment classifier *)

(** C6: every code over {1,2,3,4}^3 maps to one segment name, the entry of
    the fixed table when the code is listed and "Others" when it is not. *)
Theorem segment_classifier_total (r f m : Z) :
  In r scores_1_4 -> In f scores_1_4 -> In m scores_1_4 ->
  segment_of (RFM_Score (Some r) (Some f) (Some m)) = spec_segment r f m.
Proof.
  unfold scores_1_4. simpl.
  intros Hr Hf Hm.
  repeat match goal with
         | H : _ \/ _ |- _ => destruct H as [H|H]
         | H : False |- _ => destruct H
         end; subst; vm_compute; reflexivity.
Qed.

Lemma segment_classifier_total_witness :
  segment_of (RFM_Score (Some 4%Z) (Some 4%Z) (Some 3%Z)) = "Champions"%string.
Proof.
  apply (@segment_classifier_total 4 4 3)%Z; simpl; auto.
Defined.

(** ** Filters of the callback *)

Lemma filter_none (A : Type) (p : A -> bool) (l : list A) :
  (forall x, In x l -> p x = false) -> filter p l = [].
Proof.
  induction l as [|a t IH]; simpl; intros H; [reflexivity|].
  rewrite (H a (or_introl eq_refl)). apply IH.
  intros x Hx. apply H. right. exact Hx.
Qed.

Lemma inverted_bounds_reject (s e : Z) (c : option Z) :
  (e < s)%Z -> ge_date c s && le_date c e = false.
Proof.
  intros H. destruct c as [t|]; simpl; [|reflexivity].
  destruct (Z.leb_spec s t); destruct (Z.leb_spec t e); simpl;
    try reflexivity; lia.
Qed.

(** C7: an empty category set and an absent category set give the same
    rows and the same five aggregates, for every ledger and every other
    filter value; the same holds for countries, and with every filter
    absent no row is dropped. *)
Theorem empty_category_set_is_no_filter (df : DataFrame)
  (start_date end_date : option Z) (countries : option (list string)) :
  update_charts df start_date end_date (Some []) countries
  = update_charts df start_date end_date None countries
  /\ apply_filters df start_date end_date (Some []) countries
     = apply_filters df start_date end_date None countries
  /\ (forall categories,
        update_charts df start_date end_date categories (Some [])
        = update_charts df start_date end_date categories None)
  /\ apply_filters df None None None None = df.
Proof.
  unfold update_charts, apply_filters. simpl. repeat split; reflexivity.
Qed.

(** C10: with only one of the two dates supplied the callback applies no
    date restriction: the result is that of no date at all, and without
    other filters every row is kept. *)
Theorem one_date_bound_is_no_date_filter (df : DataFrame) (d : Z)
  (categories countries : option (list string)) :
  update_charts df (Some d) None categories countries
  = update_charts df None None categories countries
  /\ update_charts df None (Some d) categories countries
     = update_charts df None None categories countries
  /\ apply_filters df (Some d) None None None = df
  /\ apply_filters df None (Some d) None None = df.
Proof.
  unfold update_charts, apply_filters. simpl. repeat split; reflexivity.
Qed.

(** C8: inverted date bounds leave no row, whatever the other filters, and
    the five series of the empty frame are empty; but the callback does not
    return them: [px.bar] raises on the empty top-products series at line
    361. *)
Theorem inverted_dates_make_callback_raise (df : DataFrame) (s e : Z)
  (categories countries : option (list string)) :
  (e < s)%Z ->
  apply_filters df (Some s) (Some e) categories countries = []
  /\ aggregates (apply_filters df (Some s) (Some e) categories countries)
     = empty_charts
  /\ update_charts df (Some s) (Some e) categories countries
     = Raise columns_error.
Proof.
  intros H.
  assert (E : apply_filters df (Some s) (Some e) categories countries = []).
  { unfold apply_filters.
    rewrite (filter_none _ df)
      by (intros x _; apply inverted_bounds_reject; exact H).
    destruct (truthy categories); destruct (truthy countries); reflexivity. }
  split; [exact E|].
  unfold update_charts. rewrite E. split; reflexivity.
Qed.

Lemma inverted_dates_make_callback_raise_witness :
  snd (startup rng0 ledger_ties) = Ok (started ledger_ties)
  /\ update_charts (started ledger_ties) (Some (5 * ns_per_day)%Z)
       (Some (2 * ns_per_day)%Z) None None = Raise columns_error.
Proof.
  split; [vm_compute; reflexivity|].
  apply (@inverted_dates_make_callback_raise (started ledger_ties)
           (5 * ns_per_day)%Z (2 * ns_per_day)%Z).
  vm_compute. reflexivity.
Defined.

(** ** Top products *)

(** C9 as stated fails: two products with the same summed revenue are both
    in the series of line 360, so it is not strictly decreasing. *)
Lemma top_products_ties_counterexample :
  snd (startup rng0 ledger_ties) = Ok (started ledger_ties)
  /\ top_prod (aggregates
                 (apply_filters (started ledger_ties) None None None None))
     = [("lamp"%string, 10%Q); ("mug"%string, 10%Q); ("pen"%string, 3%Q)]
  /\ ~ strictly_descending
         (top_prod (aggregates
                      (apply_filters (started ledger_ties) None None None
                                     None))).
Proof.
  split; [vm_compute; reflexivity|].
  assert (E : top_prod (aggregates
                          (apply_filters (started ledger_ties) None None None
                                         None))
              = [("lamp"%string, 10%Q); ("mug"%string, 10%Q);
                 ("pen"%string, 3%Q)])
    by (vm_compute; reflexivity).
  split; [exact E|].
  rewrite E. unfold strictly_descending. intros H.
  inversion H as [|a l Hl Hd]; subst.
  inversion Hd as [|b l' Hlt]; subst.
  simpl in Hlt. apply (Qlt_irrefl 10). exact Hlt.
Qed.

(** C9 amended: for every ledger and every filter the top-products series
    (line 360) has at most 10 entries, in weakly decreasing order of summed
    revenue. *)
Theorem top_products_at_most_10_descending (df : DataFrame)
  (start_date end_date : option Z) (categories countries : option (list string)) :
  (length (top_prod (aggregates
                       (apply_filters df start_date end_date categories
                                      countries)))
   <= 10)%nat
  /\ descending
       (top_prod (aggregates
                    (apply_filters df start_date end_date categories
                                   countries))).
Proof.
  unfold aggregates. simpl. split.
  - apply nlargest_length.
  - apply nlargest_descending.
Qed.

(** ** Loading *)

Lemma example_data_length (g : Rng) : length (example_data g) = 1000%nat.
Proof. unfold example_data. rewrite length_map, length_seq. reflexivity. Qed.

(** C2 as stated fails: an unreadable source and a readable source without
    any valid row both end in [Ok], on the example ledger and on the empty
    ledger, and no exception reaches the caller. *)
Lemma load_reports_no_error_counterexample :
  load rng0 Unreadable
  = ([MsgError FileNotFoundError; MsgExample], Ok (example_data rng0))
  /\ clean (map coerce
        [sale "i1" "c1" "lamp" (on_day 0) (Num (-1)) (Num 10)]%string) = []
  /\ load rng0 ledger_no_valid_row
     = ([MsgColumns all_columns; MsgPrepared 0; MsgPeriod None None;
         MsgTotal 0], Ok []).
Proof. repeat split; vm_compute; reflexivity. Qed.

(** C2 amended: the load step never raises.  An unreadable source, or one
    that lacks a column the preparation reads, makes it print the error and
    go on with the generated example ledger of 1000 rows; any other source
    gives the cleaned rows, which may be none. *)
Theorem load_falls_back_to_example_data (g : Rng) (src : Source) :
  raises (snd (load g src)) = false
  /\ length (example_data g) = 1000%nat
  /\ match src with
     | Unreadable =>
         load g src
         = ([MsgError FileNotFoundError; MsgExample], Ok (example_data g))
     | Csv cols rows =>
         if forallb (has_column cols) required_columns
         then snd (load g src)
              = Ok (stub_rating g cols
                      (stub_category g cols (clean (map coerce rows))))
         else exists c,
             In c required_columns
             /\ load g src
                = ([MsgColumns cols; MsgError (KeyError c); MsgExample],
                   Ok (example_data g))
     end.
Proof.
  split; [|split; [apply example_data_length|]].
  - unfold load. destruct (prepare g src) as [log [df|e]]; reflexivity.
  - destruct src as [|cols rows]; [reflexivity|].
    unfold load, prepare, require_column, required_columns, forallb.
    destruct (has_column cols "Quantity");
      [|exists "Quantity"%string; split; [simpl; tauto|reflexivity]].
    destruct (has_column cols "UnitPrice");
      [|exists "UnitPrice"%string; split; [simpl; tauto|reflexivity]].
    destruct (has_column cols "InvoiceDate");
      [|exists "InvoiceDate"%string; split; [simpl; tauto|reflexivity]].
    destruct (has_column cols "InvoiceNo");
      [|exists "InvoiceNo"%string; split; [simpl; tauto|reflexivity]].
    destruct (has_column cols "CustomerID");
      [|exists "CustomerID"%string; split; [simpl; tauto|reflexivity]].
    reflexivity.
Qed.

(** ** Cleaning *)

Lemma gt_cell_pos (c : option Q) :
  gt_cell c 0 = true <-> exists q, c = Some q /\ (0 < q)%Q.
Proof.
  destruct c as [q|]; simpl.
  - rewrite Qltb_lt. split.
    + intros H. exists q. split; [reflexivity|exact H].
    + intros [q' [E H]]. inversion E. subst. exact H.
  - split; [discriminate|]. intros [q [E _]]. discriminate.
Qed.

Lemma notna_some (A : Type) (c : option A) : notna c = true <-> c <> None.
Proof.
  destruct c; unfold notna; simpl; split; try congruence; intros; discriminate.
Qed.

Lemma coerce_Revenue (r : RawRow) :
  Revenue (coerce r) = mul_cell (Quantity (coerce r)) (UnitPrice (coerce r)).
Proof. reflexivity. Qed.

(** A coerced row survives the cleaning exactly when it has the two
    identifiers and positive quantity and price; its date plays no part. *)
Lemma clean_keeps (rows : list RawRow) (x : Row) :
  In x (clean (map coerce rows))
  <-> exists r, In r rows /\ x = coerce r /\ retained x.
Proof.
  unfold clean. rewrite !filter_In, in_map_iff.
  unfold dropna_subset. rewrite !andb_true_iff, !notna_some, !gt_cell_pos.
  split.
  - intros [[[[r [E Hr]] [[Hi Hc] Hv]] [q [Hq Hq0]]] [p [Hp Hp0]]].
    exists r. subst x. repeat split; try assumption.
    + exists q. split; assumption.
    + exists p. split; assumption.
  - intros [r [Hr [E [Hi [Hc [[q [Hq Hq0]] [p [Hp Hp0]]]]]]]].
    repeat split; try assumption.
    + exists r. split; [symmetry; exact E|exact Hr].
    + subst x. rewrite coerce_Revenue, Hq, Hp. discriminate.
    + exists q. split; assumption.
    + exists p. split; assumption.
Qed.

Lemma assign_Category_retained (values : nat -> option string) (i : nat)
  (df : DataFrame) :
  Forall retained df -> Forall retained (assign set_Category values i df).
Proof.
  intros H. revert i. induction H as [|r t Hr Ht IH]; intros i; simpl;
    constructor; [exact Hr|apply IH].
Qed.

Lemma assign_Rating_retained (values : nat -> option Q) (i : nat)
  (df : DataFrame) :
  Forall retained df -> Forall retained (assign set_Rating values i df).
Proof.
  intros H. revert i. induction H as [|r t Hr Ht IH]; intros i; simpl;
    constructor; [exact Hr|apply IH].
Qed.

(** C3 as stated fails: a sale whose date does not parse is retained, with
    a null date. *)
Lemma unparseable_date_kept_counterexample :
  exists r,
    snd (prepare rng0 ledger_bad_date) = Ok [r]
    /\ InvoiceDate r = None
    /\ ~ Forall spec_retained [r].
Proof.
  eexists. split; [vm_compute; reflexivity|].
  split; [reflexivity|].
  intros H. inversion H as [|r l [_ [_ [_ [_ Hd]]]] Hl]; subst.
  apply Hd. reflexivity.
Qed.

(** C3 amended: every row retained by the preparation has a non-null
    invoice and customer and a positive quantity and unit price; the date is
    not checked: the cleaning keeps exactly the coerced rows with these four
    properties, so a row whose date does not parse is kept when it has
    them. *)
Theorem retained_rows_are_valid (g : Rng) (cols : list string)
  (rows : list RawRow) (df : DataFrame) :
  snd (prepare g (Csv cols rows)) = Ok df ->
  Forall retained df
  /\ forall x, In x (clean (map coerce rows))
               <-> exists r, In r rows /\ x = coerce r /\ retained x.
Proof.
  intros H. split; [|intros x; apply clean_keeps].
  unfold prepare, require_column in H.
  destruct (has_column cols "Quantity"); [|discriminate].
  destruct (has_column cols "UnitPrice"); [|discriminate].
  destruct (has_column cols "InvoiceDate"); [|discriminate].
  destruct (has_column cols "InvoiceNo"); [|discriminate].
  destruct (has_column cols "CustomerID"); [|discriminate].
  simpl in H. inversion H; subst df; clear H.
  assert (Hc : Forall retained (clean (map coerce rows))).
  { apply Forall_forall. intros x Hx.
    apply clean_keeps in Hx. destruct Hx as [r [_ [_ Hr]]]. exact Hr. }
  unfold stub_rating, stub_category.
  destruct (has_column cols "Category"); destruct (has_column cols "Rating");
    auto using assign_Category_retained, assign_Rating_retained.
Qed.

Lemma retained_rows_are_valid_witness :
  Forall retained
    [coerce (sale "i1" "c1" "lamp" (DateText "soon") (Num 1) (Num 10))]%string.
Proof.
  apply (@retained_rows_are_valid rng0 all_columns
           [sale "i1" "c1" "lamp" (DateText "soon") (Num 1) (Num 10)]%string).
  vm_compute. reflexivity.
Defined.

(** ** Quantile edges *)

Lemma Qsort_strongly_sorted (l : list Q) :
  StronglySorted Qle (sort Qle_bool l).
Proof.
  apply Sorted_StronglySorted.
  - intros a b c. apply Qle_trans.
  - pose proof (sort_sorted Qle_bool Qle_bool_total l) as H.
    induction H as [|a t Ht IH Ha]; constructor; [exact IH|].
    destruct Ha as [|b t' Hab]; constructor.
    apply Qle_bool_iff. exact Hab.
Qed.

Lemma sorted_head_least (l : list Q) (y : Q) :
  StronglySorted Qle l -> In y l -> (nth 0 l 0 <= y)%Q.
Proof.
  intros H Hy. destruct H as [|a t Ht Ha]; [destruct Hy|].
  simpl. destruct Hy as [E|Hy].
  - subst. apply Qle_refl.
  - rewrite Forall_forall in Ha. apply Ha. exact Hy.
Qed.

Lemma sorted_last_greatest (l : list Q) (y : Q) :
  StronglySorted Qle l -> In y l -> (y <= nth (length l - 1) l 0)%Q.
Proof.
  intros H. revert y. induction H as [|a t Ht IH Ha]; intros y Hy.
  - destruct Hy.
  - destruct t as [|b t'].
    + destruct Hy as [E|[]]. subst. apply Qle_refl.
    + replace (nth (length (a :: b :: t') - 1) (a :: b :: t') 0%Q)
        with (nth (length (b :: t') - 1) (b :: t') 0%Q)
        by (simpl; rewrite Nat.sub_0_r; reflexivity).
      destruct Hy as [E|Hy].
      * subst. rewrite Forall_forall in Ha. apply Ha.
        apply nth_In. simpl. lia.
      * apply IH. exact Hy.
Qed.

(** A quartile edge is a weighted mean of two of the values, so it is at
    most any bound of the values. *)
Lemma quantile_le_bound (s : list Q) (k : nat) (bound : Q) :
  s <> [] -> (k <= 4)%nat ->
  (forall y, In y s -> (y <= bound)%Q) ->
  (quantile 4 s k <= bound)%Q.
Proof.
  intros Hs Hk Hb. unfold quantile.
  assert (Hn : (0 < length s)%nat) by (destruct s; [congruence|simpl; lia]).
  set (p := ((length s - 1) * k)%nat).
  assert (Hp : (p <= (length s - 1) * 4)%nat) by (unfold p; nia).
  assert (Hlo : (p / 4 < length s)%nat).
  { apply Nat.Div0.div_le_mono with (c := 4%nat) in Hp.
    rewrite Nat.div_mul in Hp by lia. lia. }
  assert (Ha : (nth (p / 4) s 0 <= bound)%Q) by (apply Hb, nth_In; exact Hlo).
  assert (Hb' : (nth (S (p / 4)) s (nth (p / 4) s 0) <= bound)%Q).
  { destruct (Nat.lt_ge_cases (S (p / 4)) (length s)) as [H|H].
    - apply Hb, nth_In. exact H.
    - rewrite nth_overflow by exact H. exact Ha. }
  pose proof (Nat.mod_upper_bound p 4) as Hr.
  generalize dependent (nth (S (p / 4)) s (nth (p / 4) s 0%Q)).
  generalize dependent (nth (p / 4) s 0%Q).
  intros a Ha b Hb'.
  destruct (p mod 4)%nat as [|[|[|[|r]]]]; try lia; try exact Ha;
    cbn [Z.of_nat Pos.of_nat Pos.of_succ_nat Pos.succ]; lra.
Qed.

Lemma quantile_first (s : list Q) : quantile 4 s 0 = nth 0 s 0%Q.
Proof. unfold quantile. rewrite Nat.mul_0_r. reflexivity. Qed.

Lemma quantile_last (s : list Q) :
  quantile 4 s 4 = nth (length s - 1) s 0%Q.
Proof.
  unfold quantile.
  rewrite Nat.Div0.mod_mul, Nat.div_mul by lia. reflexivity.
Qed.

(** ** Dropping duplicated edges *)

Section UniqueFacts.
Variable A : Type.
Variable eqb : A -> A -> bool.

Lemma unique_from_length (seen l : list A) :
  (length (unique_from eqb seen l) <= length l)%nat.
Proof.
  revert seen. induction l as [|x t IH]; intros seen; simpl; [lia|].
  destruct (mem eqb x seen); simpl.
  - specialize (IH seen). lia.
  - specialize (IH (x :: seen)). lia.
Qed.

Lemma unique_from_all_kept (seen l : list A) :
  length (unique_from eqb seen l) = length l ->
  unique_from eqb seen l = l /\ distinct_from eqb seen l.
Proof.
  revert seen. induction l as [|x t IH]; intros seen; simpl; [auto|].
  destruct (mem eqb x seen) eqn:E; simpl; intros H.
  - pose proof (unique_from_length seen t). lia.
  - injection H as H. destruct (IH _ H) as [H1 H2].
    rewrite H1. auto.
Qed.

Lemma unique_from_distinct (seen l : list A) :
  distinct_from eqb seen l -> unique_from eqb seen l = l.
Proof.
  revert seen. induction l as [|x t IH]; intros seen; simpl; [auto|].
  intros [H1 H2]. rewrite H1, (IH _ H2). reflexivity.
Qed.
End UniqueFacts.

(** When [qcut] into quartiles succeeds, no edge was dropped: the bins are
    the five quantiles of the sorted values, pairwise different. *)
Lemma qcut_ok_bins (x : list (option Q)) (labels : list Z)
  (scores : list (option Z)) :
  length labels = 4%nat ->
  qcut x 4 labels = Ok scores ->
  let s := sort Qle_bool (dropna x) in
  let bins := map (quantile 4 s) [0; 1; 2; 3; 4]%nat in
  s <> []
  /\ distinct_from Qeq_bool [] bins
  /\ scores = map (fun v => match bin_id bins v with
                            | Some id => nth_error labels (id - 1)
                            | None => None
                            end) x.
Proof.
  intros Hl H. cbv zeta.
  unfold qcut, quantile_edges, linspace in H. rewrite Hl in H.
  destruct (sort Qle_bool (dropna x)) as [|a t]; [discriminate|].
  cbv iota in H. simpl seq in H.
  set (bins := map (quantile 4 (a :: t)) [0; 1; 2; 3; 4]%nat) in *.
  destruct (4 =? length (unique Qeq_bool bins) - 1)%nat eqn:E;
    [|discriminate].
  apply Nat.eqb_eq in E. simpl in H.
  assert (E5 : length (unique_from Qeq_bool [] bins) = length bins)
    by (unfold unique in E; change (length bins) with 5%nat; lia).
  destruct (unique_from_all_kept _ _ _ E5) as [Hu Hd].
  unfold unique in H. rewrite Hu in H.
  split; [discriminate|].
  split; [exact Hd|]. inversion H. reflexivity.
Qed.

(** With four labels, [qcut] raises as soon as an edge is dropped. *)
Lemma qcut_dropped_edge_raises (x : list (option Q)) (labels : list Z) :
  length labels = 4%nat ->
  length (unique Qeq_bool (quantile_edges x 4)) <> 5%nat ->
  qcut x 4 labels = Raise labels_error.
Proof.
  intros Hl H. unfold qcut. rewrite Hl.
  destruct (4 =? length (unique Qeq_bool (quantile_edges x 4)) - 1)%nat eqn:E;
    [|reflexivity].
  apply Nat.eqb_eq in E. lia.
Qed.

(** ** Recency score *)

Lemma in_injected (r : list (option Z)) (y : Q) :
  In y (dropna (map (option_map inject_Z) r))
  <-> exists w, In (Some w) r /\ y = inject_Z w.
Proof.
  induction r as [|[w|] t IH]; simpl.
  - split; [intros []|intros [w [[] _]]].
  - rewrite IH. split.
    + intros [E|[w' [Hw E]]]; [exists w; auto|exists w'; auto].
    + intros [w' [[E|Hw] Ey]].
      * inversion E. subst. auto.
      * right. exists w'. auto.
  - rewrite IH. split.
    + intros [w' [Hw E]]. exists w'. auto.
    + intros [w' [[E|Hw] Ey]]; [discriminate|]. exists w'. auto.
Qed.

Lemma Qeq_bool_false (a b : Q) : Qeq_bool a b = false <-> ~ (a == b)%Q.
Proof.
  rewrite <- Qeq_bool_iff. destruct (Qeq_bool a b); split; congruence.
Qed.

(** C5: whenever the recency scoring succeeds, a customer with the smallest
    recency gets score 4, which is the largest score present, and a customer
    with the largest recency gets score 1. *)
Theorem recency_score_order_inverting (r : list (option Z))
  (scores : list (option Z)) (i : nat) (v : Z) :
  R_Score r = Ok scores ->
  nth_error r i = Some (Some v) ->
  ((forall w, In (Some w) r -> (v <= w)%Z) ->
   nth_error scores i = Some (Some 4%Z)
   /\ forall s, In (Some s) scores -> (s <= 4)%Z)
  /\ ((forall w, In (Some w) r -> (w <= v)%Z) ->
      nth_error scores i = Some (Some 1%Z)).
Proof.
  intros H Hi. unfold R_Score in H.
  apply qcut_ok_bins in H; [|reflexivity]. cbv zeta in H.
  set (x := map (option_map inject_Z) r) in *.
  set (s := sort Qle_bool (dropna x)) in *.
  destruct H as [Hs [Hd Hsc]]. cbn [map] in Hd, Hsc.
  rewrite quantile_first, quantile_last in Hd, Hsc.
  assert (Hn : (0 < length s)%nat) by (destruct s; [congruence|simpl; lia]).
  assert (Hin : In (inject_Z v) s).
  { apply sort_in, in_injected. exists v. split; [|reflexivity].
    eapply nth_error_In. exact Hi. }
  pose proof (Qsort_strongly_sorted (dropna x)) as Hsorted. fold s in Hsorted.
  assert (Hfrom : forall y, In y s -> exists w, In (Some w) r /\ y = inject_Z w).
  { intros y Hy. apply in_injected. apply (sort_in Qle_bool). exact Hy. }
  set (e0 := nth 0 s 0%Q) in *.
  set (e4 := nth (length s - 1) s 0%Q) in *.
  set (e1 := quantile 4 s 1) in *.
  set (e2 := quantile 4 s 2) in *.
  set (e3 := quantile 4 s 3) in *.
  assert (He0 : In e0 s) by (apply nth_In; exact Hn).
  assert (He4 : In e4 s) by (apply nth_In; lia).
  assert (Hsi : nth_error scores i
                = Some match bin_id [e0; e1; e2; e3; e4] (Some (inject_Z v)) with
                       | Some id => nth_error [4; 3; 2; 1]%Z (id - 1)
                       | None => None
                       end).
  { rewrite Hsc, nth_error_map. unfold x. rewrite nth_error_map, Hi.
    reflexivity. }
  split; intros Hv.
  - assert (E : Qeq_bool (inject_Z v) e0 = true).
    { apply Qeq_bool_iff, Qle_antisym.
      - destruct (Hfrom _ He0) as [w [Hw Ew]]. rewrite Ew.
        rewrite <- Zle_Qle. apply Hv. exact Hw.
      - apply sorted_head_least; assumption. }
    split.
    + rewrite Hsi. unfold bin_id. rewrite E. reflexivity.
    + intros s0 Hs0. rewrite Hsc in Hs0. apply in_map_iff in Hs0.
      destruct Hs0 as [y [Ey _]].
      destruct (bin_id [e0; e1; e2; e3; e4] y) as [id|]; [|discriminate].
      apply nth_error_In in Ey. simpl in Ey. lia.
  - assert (E : (e4 == inject_Z v)%Q).
    { apply Qle_antisym.
      - destruct (Hfrom _ He4) as [w [Hw Ew]]. rewrite Ew.
        rewrite <- Zle_Qle. apply Hv. exact Hw.
      - apply sorted_last_greatest; assumption. }
    assert (Hb : forall y, In y s -> (y <= e4)%Q)
      by (intros y Hy; apply sorted_last_greatest; assumption).
    cbn [distinct_from mem existsb] in Hd.
    destruct Hd as [_ [_ [_ [_ [Hd _]]]]].
    rewrite !orb_false_iff, !Qeq_bool_false in Hd.
    destruct Hd as [D3 [D2 [D1 [D0 _]]]].
    assert (L0 : (e0 <= e4)%Q) by (apply Hb; exact He0).
    assert (L1 : (e1 <= e4)%Q) by (apply quantile_le_bound; auto).
    assert (L2 : (e2 <= e4)%Q) by (apply quantile_le_bound; auto).
    assert (L3 : (e3 <= e4)%Q) by (apply quantile_le_bound; auto).
    assert (K : forall e, (e <= e4)%Q -> ~ (e4 == e)%Q ->
                          Qltb e (inject_Z v) = true).
    { intros e Le Ne. apply Qltb_lt.
      destruct (Qle_lt_or_eq _ _ Le) as [Hlt|Heq].
      - rewrite <- E. exact Hlt.
      - exfalso. apply Ne. symmetry. exact Heq. }
    assert (K4 : Qltb e4 (inject_Z v) = false)
      by (apply Qltb_false; rewrite E; apply Qle_refl).
    assert (E0 : Qeq_bool (inject_Z v) e0 = false).
    { apply Qeq_bool_false. intros Heq. apply D0. rewrite E. exact Heq. }
    rewrite Hsi. unfold bin_id, searchsorted_left. cbn [filter].
    rewrite E0, !K, K4 by assumption. reflexivity.
Qed.

Lemma recency_score_order_inverting_witness :
  nth_error [Some 4; Some 3; Some 2; Some 1]%Z 0 = Some (Some 4%Z)
  /\ nth_error [Some 4; Some 3; Some 2; Some 1]%Z 3 = Some (Some 1%Z).
Proof.
  split.
  - apply (@recency_score_order_inverting
             [Some 0; Some 10; Some 20; Some 30]%Z
             [Some 4; Some 3; Some 2; Some 1]%Z 0 0%Z).
    + vm_compute. reflexivity.
    + reflexivity.
    + simpl. intros w [E|[E|[E|[E|[]]]]]; inversion E; lia.
  - apply (@recency_score_order_inverting
             [Some 0; Some 10; Some 20; Some 30]%Z
             [Some 4; Some 3; Some 2; Some 1]%Z 3 30%Z).
    + vm_compute. reflexivity.
    + reflexivity.
    + simpl. intros w [E|[E|[E|[E|[]]]]]; inversion E; lia.
Defined.

(** ** Ranks by first occurrence *)

Lemma rank_first_from_length (after before : list Z) :
  length (rank_first_from before after) = length after.
Proof.
  revert before. induction after as [|v t IH]; intros before; simpl;
    [reflexivity|]. rewrite IH. reflexivity.
Qed.

Lemma rank_first_from_nth (after before : list Z) (i : nat) (v : Z) :
  nth_error after i = Some v ->
  nth_error (rank_first_from before after) i
  = Some (1 + count_lt (before ++ after) v
            + count_eq (before ++ firstn i after) v)%nat.
Proof.
  revert before i. induction after as [|a t IH]; intros before i H.
  - destruct i; discriminate.
  - destruct i as [|i]; simpl in H.
    + inversion H; subst. simpl. rewrite app_nil_r. reflexivity.
    + cbn [rank_first_from nth_error firstn].
      rewrite (IH _ _ H). rewrite <- !app_assoc. reflexivity.
Qed.

Lemma rank_first_nth (s : list Z) (i : nat) (v : Z) :
  nth_error s i = Some v ->
  nth_error (rank_first s) i
  = Some (1 + count_lt s v + count_eq (firstn i s) v)%nat.
Proof. intros H. apply (rank_first_from_nth s [] i H). Qed.

Lemma rank_first_length (s : list Z) : length (rank_first s) = length s.
Proof. apply rank_first_from_length. Qed.

Lemma count_lt_eq_below (l : list Z) (a b : Z) :
  (a < b)%Z -> (count_lt l a + count_eq l a <= count_lt l b)%nat.
Proof.
  intros H. unfold count_lt, count_eq.
  induction l as [|w t IH]; simpl; [lia|].
  destruct (Z.ltb_spec w a); destruct (Z.eqb_spec w a);
    destruct (Z.ltb_spec w b); simpl; lia.
Qed.

Lemma count_lt_eq_length (l : list Z) (a : Z) :
  (count_lt l a + count_eq l a <= length l)%nat.
Proof.
  unfold count_lt, count_eq.
  induction l as [|w t IH]; simpl; [lia|].
  destruct (Z.ltb_spec w a); destruct (Z.eqb_spec w a); simpl; lia.
Qed.

Lemma count_eq_before (s : list Z) (i : nat) (v : Z) :
  nth_error s i = Some v ->
  (count_eq (firstn i s) v + 1 <= count_eq s v)%nat.
Proof.
  unfold count_eq. revert i.
  induction s as [|w t IH]; intros i H; [destruct i; discriminate|].
  destruct i as [|i]; simpl in *.
  - inversion H; subst. rewrite Z.eqb_refl. simpl. lia.
  - specialize (IH _ H). destruct (w =? v)%Z; simpl; lia.
Qed.

Lemma count_eq_earlier (s : list Z) (i j : nat) (v : Z) :
  (i < j)%nat -> nth_error s i = Some v ->
  (count_eq (firstn i s) v + 1 <= count_eq (firstn j s) v)%nat.
Proof.
  unfold count_eq. revert i j.
  induction s as [|w t IH]; intros i j Hij H; [destruct i; discriminate|].
  destruct j as [|j]; [lia|].
  destruct i as [|i]; simpl in *.
  - inversion H; subst. rewrite Z.eqb_refl. simpl. lia.
  - assert (Hij' : (i < j)%nat) by lia.
    specialize (IH _ _ Hij' H). destruct (w =? v)%Z; simpl; lia.
Qed.

(** The rank follows the value, and among equal values the position. *)
Lemma rank_first_order (s : list Z) (i j : nat) (a b : Z) (ri rj : nat) :
  (i < j)%nat ->
  nth_error s i = Some a -> nth_error s j = Some b ->
  nth_error (rank_first s) i = Some ri ->
  nth_error (rank_first s) j = Some rj ->
  ((a <= b)%Z -> (ri < rj)%nat) /\ ((b < a)%Z -> (rj < ri)%nat).
Proof.
  intros Hij Ha Hb Hri Hrj.
  rewrite (rank_first_nth _ _ Ha) in Hri.
  rewrite (rank_first_nth _ _ Hb) in Hrj.
  inversion Hri; inversion Hrj; subst; clear Hri Hrj.
  pose proof (count_eq_before _ _ Ha) as Ba.
  pose proof (count_eq_before _ _ Hb) as Bb.
  split; intros Hab.
  - destruct (Z.eq_dec a b) as [E|N].
    + subst b. pose proof (count_eq_earlier s Hij Ha). lia.
    + pose proof (@count_lt_eq_below s a b). lia.
  - pose proof (@count_lt_eq_below s b a). lia.
Qed.

Lemma rank_first_bounds (s : list Z) (i ri : nat) :
  nth_error (rank_first s) i = Some ri -> (1 <= ri <= length s)%nat.
Proof.
  intros H.
  assert (Hi : (i < length s)%nat).
  { rewrite <- rank_first_length. apply nth_error_Some. congruence. }
  destruct (nth_error s i) as [v|] eqn:E;
    [|apply nth_error_None in E; lia].
  rewrite (rank_first_nth _ _ E) in H. inversion H; subst.
  pose proof (count_eq_before _ _ E).
  pose proof (count_lt_eq_length s v). lia.
Qed.

Lemma rank_first_NoDup (s : list Z) : NoDup (rank_first s).
Proof.
  apply NoDup_nth_error. intros i j Hi E.
  rewrite rank_first_length in Hi.
  destruct (nth_error s i) as [a|] eqn:Ea; [|apply nth_error_None in Ea; lia].
  destruct (nth_error (rank_first s) i) as [ri|] eqn:Eri;
    [|apply nth_error_None in Eri; rewrite rank_first_length in Eri; lia].
  symmetry in E.
  assert (Hj : (j < length s)%nat).
  { rewrite <- rank_first_length. apply nth_error_Some. congruence. }
  destruct (nth_error s j) as [b|] eqn:Eb; [|apply nth_error_None in Eb; lia].
  destruct (Nat.lt_trichotomy i j) as [L|[L|L]]; [|exact L|].
  - destruct (rank_first_order s L Ea Eb Eri E) as [H1 H2].
    destruct (Z.le_gt_cases a b); [specialize (H1 H)|specialize (H2 H)]; lia.
  - destruct (rank_first_order s L Eb Ea E Eri) as [H1 H2].
    destruct (Z.le_gt_cases b a); [specialize (H1 H)|specialize (H2 H)]; lia.
Qed.

(** The ranks are the numbers 1..n in some order. *)
Lemma rank_first_perm (s : list Z) :
  Permutation (rank_first s) (seq 1 (length s)).
Proof.
  apply NoDup_Permutation_bis.
  - apply rank_first_NoDup.
  - rewrite length_seq, rank_first_length. lia.
  - intros r Hr. apply In_nth_error in Hr. destruct Hr as [i Hi].
    apply rank_first_bounds in Hi. apply in_seq. lia.
Qed.

(** ** The edges of the rank column *)

Lemma sort_map (A B : Type) (lebA : A -> A -> bool) (lebB : B -> B -> bool)
  (g : A -> B) (l : list A) :
  (forall a b, lebB (g a) (g b) = lebA a b) ->
  sort lebB (map g l) = map g (sort lebA l).
Proof.
  intros Hg.
  assert (Hi : forall x t, insert lebB (g x) (map g t) = map g (insert lebA x t)).
  { intros x t. induction t as [|y t IH]; simpl; [reflexivity|].
    rewrite Hg. destruct (lebA x y); simpl; [reflexivity|].
    rewrite IH. reflexivity. }
  induction l as [|x t IH]; simpl; [reflexivity|].
  rewrite IH. apply Hi.
Qed.

Lemma sorted_perm_eq (l1 l2 : list nat) :
  StronglySorted le l1 -> StronglySorted le l2 -> Permutation l1 l2 ->
  l1 = l2.
Proof.
  intros H1. revert l2. induction H1 as [|a t Ht IH Ha]; intros l2 H2 P.
  - apply Permutation_nil in P. subst. reflexivity.
  - destruct H2 as [|b u Hu Hb].
    + apply Permutation_sym, Permutation_nil in P. discriminate.
    + assert (E : a = b).
      { rewrite Forall_forall in Ha, Hb.
        assert (Hab : In a (b :: u))
          by (apply (Permutation_in _ P); left; reflexivity).
        assert (Hba : In b (a :: t))
          by (apply (Permutation_in _ (Permutation_sym P)); left; reflexivity).
        destruct Hab as [E|Hab]; [auto|].
        destruct Hba as [E|Hba]; [auto|].
        specialize (Ha _ Hba). specialize (Hb _ Hab). lia. }
      subst b. f_equal. apply IH; [exact Hu|].
      apply Permutation_cons_inv with a. exact P.
Qed.

Lemma seq_strongly_sorted (start len : nat) :
  StronglySorted le (seq start len).
Proof.
  revert start. induction len as [|n IH]; intros start; simpl; constructor.
  - apply IH.
  - apply Forall_forall. intros x Hx. apply in_seq in Hx. lia.
Qed.

Lemma nat_sort_strongly_sorted (l : list nat) :
  StronglySorted le (sort Nat.leb l).
Proof.
  apply Sorted_StronglySorted.
  - intros a b c. apply Nat.le_trans.
  - assert (T : forall a b, (a <=? b)%nat = true \/ (b <=? a)%nat = true).
    { intros a b. rewrite !Nat.leb_le. lia. }
    pose proof (sort_sorted Nat.leb T l) as H.
    induction H as [|a t Ht IH Ha]; constructor; [exact IH|].
    destruct Ha as [|b t' Hab]; constructor.
    apply Nat.leb_le. exact Hab.
Qed.

Lemma rank_value_leb (a b : nat) :
  Qle_bool (rank_value a) (rank_value b) = (a <=? b)%nat.
Proof.
  apply eq_true_iff_eq. unfold rank_value.
  rewrite Qle_bool_iff, <- Zle_Qle, Nat.leb_le. lia.
Qed.

Lemma dropna_Some (A : Type) (l : list A) : dropna (map Some l) = l.
Proof. induction l as [|a t IH]; simpl; [|rewrite IH]; reflexivity. Qed.

(** The sorted values of the rank column are 1..n. *)
Lemma F_rank_sorted (f : list nat) :
  sort Qle_bool (dropna (F_rank f)) = map rank_value (seq 1 (length f)).
Proof.
  unfold F_rank.
  change (fun k : nat => Some (inject_Z (Z.of_nat k)))
    with (fun k : nat => Some (rank_value k)).
  rewrite <- (map_map rank_value Some), dropna_Some.
  rewrite (sort_map Nat.leb Qle_bool rank_value _ rank_value_leb).
  f_equal. apply sorted_perm_eq.
  - apply nat_sort_strongly_sorted.
  - apply seq_strongly_sorted.
  - apply Permutation_trans with (rank_first (map Z.of_nat f)).
    + apply sort_perm.
    + rewrite <- (length_map Z.of_nat f). apply rank_first_perm.
Qed.

Lemma nth_rank_value (n i : nat) (d : Q) :
  (i < n)%nat -> nth i (map rank_value (seq 1 n)) d = rank_value (S i).
Proof.
  intros H. rewrite (nth_indep _ d (rank_value 0)) by
    (rewrite length_map, length_seq; exact H).
  rewrite map_nth, seq_nth by exact H. reflexivity.
Qed.

Lemma quartile_step (m r : Z) :
  (inject_Z m + (r # 4) * (inject_Z (m + 1) - inject_Z m)
   == (4 * m + r) # 4)%Q.
Proof.
  unfold Qminus, Qopp, Qplus, Qmult, Qeq, inject_Z.
  cbn [Qnum Qden Pos.mul]. ring.
Qed.

Lemma quantile_ranks (n k : nat) :
  (1 <= n)%nat -> (k <= 4)%nat ->
  (quantile 4 (map rank_value (seq 1 n)) k == rank_edge n k)%Q.
Proof.
  intros Hn Hk. unfold quantile, rank_edge.
  rewrite length_map, length_seq.
  set (p := ((n - 1) * k)%nat).
  assert (Hp : (p <= (n - 1) * 4)%nat) by (unfold p; nia).
  pose proof (Nat.div_mod_eq p 4) as Hdm.
  pose proof (Nat.mod_upper_bound p 4) as Hr.
  assert (Hlo : (p / 4 < n)%nat) by lia.
  rewrite nth_rank_value by exact Hlo.
  destruct (p mod 4)%nat as [|r] eqn:Er.
  - unfold rank_value, Qeq, inject_Z. cbn [Qnum Qden]. lia.
  - assert (Hlo' : (S (p / 4) < n)%nat) by lia.
    rewrite nth_rank_value by exact Hlo'.
    unfold rank_value.
    change (Pos.of_nat 4) with 4%positive.
    replace (Z.of_nat (S (S (p / 4)))) with (Z.of_nat (S (p / 4)) + 1)%Z
      by lia.
    rewrite quartile_step.
    unfold Qeq. cbn [Qnum Qden]. lia.
Qed.

Lemma rank_edge_lt (n k k' : nat) :
  (2 <= n)%nat -> (k < k')%nat -> (rank_edge n k < rank_edge n k')%Q.
Proof.
  intros Hn Hk. unfold rank_edge, Qlt. cbn [Qnum Qden]. nia.
Qed.

Lemma rank_edge_first (n : nat) : (rank_edge n 0 == rank_value 1)%Q.
Proof.
  unfold rank_edge, rank_value, Qeq, inject_Z. cbn [Qnum Qden]. lia.
Qed.

Lemma rank_edge_last (n : nat) :
  (1 <= n)%nat -> (rank_edge n 4 == rank_value n)%Q.
Proof.
  intros Hn. unfold rank_edge, rank_value, Qeq, inject_Z. cbn [Qnum Qden].
  lia.
Qed.

Lemma rank_value_lt (a b : nat) :
  (rank_value a < rank_value b)%Q <-> (a < b)%nat.
Proof. unfold rank_value. rewrite <- Zlt_Qlt. lia. Qed.

Lemma rank_value_le (a b : nat) :
  (rank_value a <= rank_value b)%Q <-> (a <= b)%nat.
Proof. unfold rank_value. rewrite <- Zle_Qle. lia. Qed.

Lemma filter_length_mono (A : Type) (p p' : A -> bool) (l : list A) :
  (forall a, p a = true -> p' a = true) ->
  (length (filter p l) <= length (filter p' l))%nat.
Proof.
  intros H. induction l as [|a t IH]; simpl; [lia|].
  destruct (p a) eqn:E.
  - rewrite (H _ E). simpl. lia.
  - destruct (p' a); simpl; lia.
Qed.

Lemma filter_length_cons (A : Type) (p : A -> bool) (a : A) (l : list A) :
  length (filter p (a :: l))
  = ((if p a then 1 else 0) + length (filter p l))%nat.
Proof. simpl. destruct (p a); reflexivity. Qed.

Lemma bin_id_first (b0 : Q) (t : list Q) (v : Q) :
  Qeq_bool v b0 = true -> 1%nat <> S (length t) ->
  bin_id (b0 :: t) (Some v) = Some 1%nat.
Proof.
  intros E H. unfold bin_id. rewrite E. cbn [length].
  destruct (Nat.eqb_spec 1 (S (length t))); [contradiction|reflexivity].
Qed.

Lemma bin_id_other (b0 : Q) (t : list Q) (v : Q) :
  Qeq_bool v b0 = false ->
  searchsorted_left (b0 :: t) v <> 0%nat ->
  searchsorted_left (b0 :: t) v <> S (length t) ->
  bin_id (b0 :: t) (Some v) = Some (searchsorted_left (b0 :: t) v).
Proof.
  intros E H0 H. unfold bin_id. rewrite E. cbn [length].
  destruct (Nat.eqb_spec (searchsorted_left (b0 :: t) v) (S (length t)));
    [contradiction|].
  destruct (Nat.eqb_spec (searchsorted_left (b0 :: t) v) 0);
    [contradiction|reflexivity].
Qed.

Section RankBins.
Variable n : nat.
Hypothesis Hn : (2 <= n)%nat.

Lemma edge_value (k : nat) :
  (k <= 4)%nat -> (rank_quantile n k == rank_edge n k)%Q.
Proof. intros Hk. apply quantile_ranks; lia. Qed.

Lemma edge_differ (k k' : nat) :
  (k < k')%nat -> (k' <= 4)%nat ->
  Qeq_bool (rank_quantile n k') (rank_quantile n k) = false.
Proof.
  intros H H'. apply Qeq_bool_false.
  rewrite !edge_value by lia.
  pose proof (rank_edge_lt Hn H) as L. intros E. rewrite E in L.
  apply (Qlt_irrefl _ L).
Qed.

Lemma rank_bins_distinct : distinct_from Qeq_bool [] (rank_bins n).
Proof.
  unfold rank_bins. cbn [map distinct_from mem existsb].
  rewrite !edge_differ by lia. simpl. tauto.
Qed.

Lemma edge_below (k rho : nat) :
  (k <= 4)%nat ->
  Qltb (rank_quantile n k) (rank_value rho) = true
  <-> (rank_edge n k < rank_value rho)%Q.
Proof. intros Hk. rewrite Qltb_lt, edge_value by exact Hk. reflexivity. Qed.

Lemma searchsorted_rank_mono (rho rho' : nat) :
  (rho <= rho')%nat ->
  (searchsorted_left (rank_bins n) (rank_value rho)
   <= searchsorted_left (rank_bins n) (rank_value rho'))%nat.
Proof.
  intros H. unfold searchsorted_left. apply filter_length_mono.
  intros b. rewrite !Qltb_lt. intros L.
  apply Qlt_le_trans with (rank_value rho); [exact L|].
  apply rank_value_le. exact H.
Qed.

Lemma searchsorted_rank_bounds (rho : nat) :
  (2 <= rho <= n)%nat ->
  (1 <= searchsorted_left (rank_bins n) (rank_value rho) <= 4)%nat.
Proof.
  intros H. unfold searchsorted_left, rank_bins. cbn [map].
  rewrite !filter_length_cons. cbn [filter length].
  assert (L0 : Qltb (rank_quantile n 0) (rank_value rho) = true).
  { apply edge_below; [lia|]. rewrite rank_edge_first.
    apply rank_value_lt. lia. }
  assert (L4 : Qltb (rank_quantile n 4) (rank_value rho) = false).
  { apply Qltb_false. rewrite edge_value, rank_edge_last by lia.
    apply rank_value_le. lia. }
  rewrite L0, L4.
  destruct (Qltb (rank_quantile n 1) (rank_value rho));
    destruct (Qltb (rank_quantile n 2) (rank_value rho));
    destruct (Qltb (rank_quantile n 3) (rank_value rho)); lia.
Qed.

Lemma searchsorted_rank_last :
  searchsorted_left (rank_bins n) (rank_value n) = 4%nat.
Proof.
  unfold searchsorted_left, rank_bins. cbn [map].
  rewrite !filter_length_cons. cbn [filter length].
  assert (L : forall k, (k < 4)%nat ->
                        Qltb (rank_quantile n k) (rank_value n) = true).
  { intros k Hk. apply edge_below; [lia|].
    rewrite <- rank_edge_last by lia. apply rank_edge_lt; lia. }
  assert (L4 : Qltb (rank_quantile n 4) (rank_value n) = false).
  { apply Qltb_false. rewrite edge_value, rank_edge_last by lia.
    apply Qle_refl. }
  rewrite !L, L4 by lia. reflexivity.
Qed.

Lemma bin_id_rank (rho : nat) :
  (1 <= rho <= n)%nat ->
  bin_id (rank_bins n) (Some (rank_value rho))
  = Some (if (rho =? 1)%nat then 1%nat
          else searchsorted_left (rank_bins n) (rank_value rho)).
Proof.
  intros H. destruct (Nat.eqb_spec rho 1) as [E|N].
  - subst rho.
    apply (@bin_id_first (rank_quantile n 0)
             (map (rank_quantile n) [1; 2; 3; 4]%nat)).
    + apply Qeq_bool_iff. rewrite edge_value, rank_edge_first by lia.
      reflexivity.
    + simpl. lia.
  - assert (B : (2 <= rho <= n)%nat) by lia.
    pose proof (searchsorted_rank_bounds B) as [B1 B2].
    apply (@bin_id_other (rank_quantile n 0)
             (map (rank_quantile n) [1; 2; 3; 4]%nat)).
    + apply Qeq_bool_false. rewrite edge_value, rank_edge_first by lia.
      intros E.
      assert (L : (rank_value 1 < rank_value rho)%Q)
        by (apply rank_value_lt; lia).
      rewrite E in L. apply (Qlt_irrefl _ L).
    + change (searchsorted_left (rank_bins n) (rank_value rho) <> 0%nat).
      lia.
    + change (searchsorted_left (rank_bins n) (rank_value rho) <> 5%nat).
      lia.
Qed.

(** The score is the bin index: 1 for rank 1, 4 for rank [n], and it
    grows with the rank. *)
Lemma rank_score_spec (rho : nat) :
  (1 <= rho <= n)%nat ->
  exists s, rank_score n rho = Some s /\ (1 <= s <= 4)%Z
            /\ (rho = 1%nat -> s = 1%Z) /\ (rho = n -> s = 4%Z)
            /\ forall rho' s', (rho <= rho' <= n)%nat ->
                               rank_score n rho' = Some s' -> (s <= s')%Z.
Proof.
  intros H. unfold rank_score. rewrite (bin_id_rank H).
  destruct (Nat.eqb_spec rho 1) as [E|N].
  - exists 1%Z. split; [reflexivity|]. split; [lia|].
    split; [reflexivity|]. split; [lia|].
    intros rho' s' H'. rewrite bin_id_rank by lia.
    destruct (rho' =? 1)%nat.
    + intros Es. inversion Es. lia.
    + intros Es. apply nth_error_In in Es. simpl in Es. lia.
  - assert (B : (2 <= rho <= n)%nat) by lia.
    pose proof (searchsorted_rank_bounds B) as [B1 B2].
    exists (Z.of_nat (searchsorted_left (rank_bins n) (rank_value rho))).
    split.
    { destruct (searchsorted_left (rank_bins n) (rank_value rho))
        as [|[|[|[|[|k]]]]]; try lia; reflexivity. }
    split; [lia|]. split; [lia|]. split.
    { intros E. subst rho. rewrite searchsorted_rank_last. reflexivity. }
    intros rho' s' H'. rewrite bin_id_rank by lia.
    destruct (Nat.eqb_spec rho' 1) as [E'|N']; [lia|].
    assert (B' : (2 <= rho' <= n)%nat) by lia.
    pose proof (searchsorted_rank_bounds B') as [B1' B2'].
    assert (M : (rho <= rho')%nat) by lia.
    pose proof (searchsorted_rank_mono M) as Hm.
    destruct (searchsorted_left (rank_bins n) (rank_value rho'))
      as [|[|[|[|[|k]]]]]; try lia; intros Es; inversion Es; lia.
Qed.

Lemma edge_below_nat (k rho : nat) :
  (k <= 4)%nat ->
  Qltb (rank_quantile n k) (rank_value rho)
  = (4 + (n - 1) * k <? 4 * rho)%nat.
Proof.
  intros Hk. apply eq_true_iff_eq. rewrite (edge_below rho Hk), Nat.ltb_lt.
  unfold rank_edge, rank_value, Qlt, inject_Z. cbn [Qnum Qden]. lia.
Qed.

(** The score of a rank is its quartile among the ranks [1..n]. *)
Lemma rank_score_quartile (rho : nat) :
  (1 <= rho <= n)%nat -> rank_score n rho = Some (quartile_of_rank n rho).
Proof.
  intros H. unfold rank_score, quartile_of_rank. rewrite (bin_id_rank H).
  destruct (Nat.eqb_spec rho 1) as [E|N].
  - subst rho. rewrite !filter_length_cons. cbn [filter length].
    assert (L : forall k, (1 <= k)%nat ->
                          (4 + (n - 1) * k <? 4 * 1)%nat = false)
      by (intros k Hk; apply Nat.ltb_ge; nia).
    rewrite !L by lia. reflexivity.
  - unfold searchsorted_left, rank_bins. cbn [map].
    rewrite !filter_length_cons. cbn [filter length].
    rewrite !edge_below_nat by lia.
    assert (L0 : (4 + (n - 1) * 0 <? 4 * rho)%nat = true)
      by (apply Nat.ltb_lt; lia).
    assert (L4 : (4 + (n - 1) * 4 <? 4 * rho)%nat = false)
      by (apply Nat.ltb_ge; lia).
    rewrite L0, L4.
    destruct (4 + (n - 1) * 1 <? 4 * rho)%nat;
      destruct (4 + (n - 1) * 2 <? 4 * rho)%nat;
      destruct (4 + (n - 1) * 3 <? 4 * rho)%nat; reflexivity.
Qed.
End RankBins.

(** With at least two customers the frequency scoring succeeds, and the
    score of a customer is the score of its rank. *)
Lemma F_Score_ok (f : list nat) :
  (2 <= length f)%nat ->
  F_Score f
  = Ok (map (rank_score (length f)) (rank_first (map Z.of_nat f))).
Proof.
  intros Hn. unfold F_Score, qcut, quantile_edges.
  rewrite F_rank_sorted.
  destruct (map rank_value (seq 1 (length f))) as [|a t] eqn:E.
  { apply (f_equal (@length Q)) in E.
    rewrite length_map, length_seq in E. simpl in E. lia. }
  rewrite <- E. unfold linspace. cbn [seq].
  change (map (quantile 4 (map rank_value (seq 1 (length f))))
            [0; 1; 2; 3; 4]%nat) with (rank_bins (length f)).
  unfold unique. rewrite (unique_from_distinct _ _ _ (rank_bins_distinct Hn)).
  change (length (rank_bins (length f))) with 5%nat.
  cbn [length Nat.sub Nat.eqb negb].
  f_equal. unfold F_rank. rewrite map_map. reflexivity.
Qed.

(** ** Frequency score *)

Lemma rfm_metrics_customers (df : DataFrame) :
  map customer (rfm_metrics df) = groupby_keys id_eqb id_leb CustomerID df.
Proof.
  unfold rfm_metrics. rewrite map_map. cbn [customer]. apply map_id.
Qed.

Lemma string_compare_OT (a b : string) :
  String.compare a b = OrdersEx.String_as_OT.compare a b.
Proof.
  revert b. induction a as [|x a IH]; intros [|y b]; simpl;
    try reflexivity.
Qed.

Lemma string_ltb_trans (a b c : string) :
  String.ltb a b = true -> String.ltb b c = true -> String.ltb a c = true.
Proof.
  unfold String.ltb.
  rewrite (string_compare_OT a b), (string_compare_OT b c),
    (string_compare_OT a c).
  intros H1 H2.
  assert (L : OrdersEx.String_as_OT.lt a c).
  { transitivity b; unfold OrdersEx.String_as_OT.lt.
    - revert H1. destruct (OrdersEx.String_as_OT.compare a b); congruence.
    - revert H2. destruct (OrdersEx.String_as_OT.compare b c); congruence. }
  unfold OrdersEx.String_as_OT.lt in L. rewrite L. reflexivity.
Qed.

Lemma string_leb_ltb (a b : string) :
  String.leb a b = true -> a <> b -> String.ltb a b = true.
Proof.
  unfold String.leb, String.ltb. intros H N.
  destruct (String.compare a b) eqn:E; try congruence.
  apply String.compare_eq_iff in E. contradiction.
Qed.

(** The order of the customer ids. *)
Lemma id_eqb_eq (a b : Id) : id_eqb a b = true <-> a = b.
Proof.
  destruct a as [x|s]; destruct b as [y|t]; simpl;
    try (split; [discriminate|intros E; discriminate E]).
  - rewrite Qeq_bool_iff. split.
    + intros E. f_equal. apply Qc_is_canon. exact E.
    + intros E. inversion E. reflexivity.
  - rewrite String.eqb_eq. split; intros E; [f_equal; exact E|].
    inversion E. reflexivity.
Qed.

Lemma id_eqb_refl (a : Id) : id_eqb a a = true.
Proof. apply id_eqb_eq. reflexivity. Qed.

Lemma id_leb_total (a b : Id) : id_leb a b = true \/ id_leb b a = true.
Proof.
  destruct a as [x|s]; destruct b as [y|t]; simpl; auto.
  - apply Qle_bool_total.
  - apply String.leb_total.
Qed.

Lemma id_ltb_trans (a b c : Id) :
  id_ltb a b = true -> id_ltb b c = true -> id_ltb a c = true.
Proof.
  destruct a as [x|s]; destruct b as [y|t]; destruct c as [z|u]; simpl;
    try congruence.
  - rewrite !Qltb_lt. apply Qlt_trans.
  - apply string_ltb_trans.
Qed.

Lemma id_leb_ltb (a b : Id) :
  id_leb a b = true -> a <> b -> id_ltb a b = true.
Proof.
  destruct a as [x|s]; destruct b as [y|t]; simpl; try congruence.
  - intros H N. apply Qltb_lt. apply Qle_bool_iff in H.
    destruct (Qle_lt_or_eq _ _ H) as [L|E]; [exact L|].
    exfalso. apply N. f_equal. apply Qc_is_canon. exact E.
  - intros H N. apply string_leb_ltb; [exact H|]. congruence.
Qed.

Section SortedKeys.
Variable K : Type.
Variables eqb leb ltb : K -> K -> bool.
Hypothesis eqb_refl : forall a, eqb a a = true.
Hypothesis leb_total : forall a b, leb a b = true \/ leb b a = true.
Hypothesis ltb_trans :
  forall a b c, ltb a b = true -> ltb b c = true -> ltb a c = true.
Hypothesis leb_ltb : forall a b, leb a b = true -> a <> b -> ltb a b = true.

Lemma unique_from_NoDup (seen l : list K) :
  NoDup (unique_from eqb seen l)
  /\ forall x, In x (unique_from eqb seen l) -> ~ In x seen.
Proof.
  revert seen. induction l as [|a t IH]; intros seen; simpl.
  - split; [constructor|intros x []].
  - destruct (mem eqb a seen) eqn:E; [apply IH|].
    destruct (IH (a :: seen)) as [N F]. split.
    + constructor; [|exact N].
      intros Ha. apply (F a Ha). left. reflexivity.
    + intros x [Hx|Hx].
      * subst x. intros Hs. unfold mem in E.
        assert (T : existsb (eqb a) seen = true).
        { apply existsb_exists. exists a. split; [exact Hs|].
          apply eqb_refl. }
        congruence.
      * intros Hs. apply (F x Hx). right. exact Hs.
Qed.

Lemma Sorted_leb_NoDup_ltb (l : list K) :
  Sorted (rel_of leb) l -> NoDup l -> Sorted (rel_of ltb) l.
Proof.
  induction 1 as [|a t Ht IH Ha]; intros N; constructor.
  - apply IH. inversion N. assumption.
  - destruct Ha as [|b t' Hab]; constructor.
    apply leb_ltb; [exact Hab|].
    intros E. subst b. inversion N as [|x l' Hn]. apply Hn. left. reflexivity.
Qed.

(** The sorted distinct values are strictly ascending. *)
Lemma sorted_unique_ascending (l : list K) :
  StronglySorted (rel_of ltb) (sort leb (unique eqb l)).
Proof.
  apply Sorted_StronglySorted.
  - intros a b c. apply ltb_trans.
  - apply Sorted_leb_NoDup_ltb.
    + apply sort_sorted. apply leb_total.
    + apply (Permutation_NoDup (Permutation_sym (sort_perm leb _))).
      apply (unique_from_NoDup [] _).
Qed.
End SortedKeys.

(** The groups of a [groupby] on a text column come in strictly ascending
    key order. *)
Lemma groupby_keys_ascending (key : Row -> option string) (df : DataFrame) :
  StronglySorted (rel_of String.ltb)
    (groupby_keys String.eqb String.leb key df).
Proof.
  unfold groupby_keys.
  apply (@sorted_unique_ascending _ String.eqb String.leb String.ltb
           String.eqb_refl String.leb_total string_ltb_trans string_leb_ltb).
Qed.

(** The rows of the RFM table are in ascending order of customer id. *)
Lemma rfm_metrics_sorted (df : DataFrame) :
  StronglySorted (rel_of id_ltb) (map customer (rfm_metrics df)).
Proof.
  rewrite rfm_metrics_customers. unfold groupby_keys.
  apply (@sorted_unique_ascending _ id_eqb id_leb id_ltb
           id_eqb_refl id_leb_total id_ltb_trans id_leb_ltb).
Qed.

(** C4 as stated fails: customer B is seen first in the ledger and ties with
    customer A on frequency, yet A gets rank 1 and score 1 and B gets rank 2
    and score 4, because the RFM table is in customer id order. *)
Lemma frequency_tie_break_counterexample :
  raises (snd (startup rng0 ledger_B_before_A)) = false
  /\ first_seen (loaded ledger_B_before_A) = [IdText "B"; IdText "A"]
  /\ map customer (rfm_metrics (loaded ledger_B_before_A))
     = [IdText "A"; IdText "B"]
  /\ map F (rfm_metrics (loaded ledger_B_before_A)) = [1; 1]%nat
  /\ rank_first (map Z.of_nat (map F (rfm_metrics (loaded ledger_B_before_A))))
     = [1; 2]%nat
  /\ F_Score (map F (rfm_metrics (loaded ledger_B_before_A)))
     = Ok [Some 1%Z; Some 4%Z].
Proof. repeat split; vm_compute; reflexivity. Qed.

(** C4 amended: for every ledger with at least two customers the frequency
    scoring succeeds.  The ranks are the numbers 1..n, each once; they follow
    the frequency, and among equal frequencies the position in the RFM
    table, which is in ascending customer id order (not first-seen order).
    The score of a customer is the quartile of its rank among 1..n: one more
    than the number of the points 1 + (n-1)k/4, k = 1, 2, 3, below the rank;
    so the score grows with the rank, rank 1 has score 1 and rank n
    score 4. *)
Theorem frequency_score_by_table_rank (df : DataFrame) :
  let rfm := rfm_metrics df in
  let n := length rfm in
  let ranks := rank_first (map Z.of_nat (map F rfm)) in
  (2 <= n)%nat ->
  StronglySorted (rel_of id_ltb) (map customer rfm)
  /\ Permutation ranks (seq 1 n)
  /\ exists scores,
      F_Score (map F rfm) = Ok scores
      /\ length scores = n
      /\ forall i j ci cj ri rj,
          nth_error rfm i = Some ci -> nth_error rfm j = Some cj ->
          nth_error ranks i = Some ri -> nth_error ranks j = Some rj ->
          ((i < j)%nat -> (F ci <= F cj)%nat -> (ri < rj)%nat)
          /\ ((i < j)%nat -> (F cj < F ci)%nat -> (rj < ri)%nat)
          /\ exists si sj,
              nth_error scores i = Some (Some si)
              /\ nth_error scores j = Some (Some sj)
              /\ si = quartile_of_rank n ri
              /\ sj = quartile_of_rank n rj
              /\ (1 <= si <= 4)%Z
              /\ ((ri <= rj)%nat -> (si <= sj)%Z)
              /\ (ri = 1%nat -> si = 1%Z)
              /\ (ri = n -> si = 4%Z).
Proof.
  intros rfm n ranks Hn.
  assert (Ln : length (map F rfm) = n) by apply length_map.
  assert (Lz : length (map Z.of_nat (map F rfm)) = n)
    by (rewrite length_map; exact Ln).
  split; [apply rfm_metrics_sorted|].
  split; [unfold ranks; rewrite <- Lz; apply rank_first_perm|].
  exists (map (rank_score n) ranks).
  split; [rewrite <- Ln; apply F_Score_ok; lia|].
  split; [unfold ranks; rewrite length_map, rank_first_length; exact Lz|].
  intros i j ci cj ri rj Hci Hcj Hri Hrj.
  assert (Hzi : nth_error (map Z.of_nat (map F rfm)) i
                = Some (Z.of_nat (F ci)))
    by (rewrite map_map, nth_error_map, Hci; reflexivity).
  assert (Hzj : nth_error (map Z.of_nat (map F rfm)) j
                = Some (Z.of_nat (F cj)))
    by (rewrite map_map, nth_error_map, Hcj; reflexivity).
  split; [|split].
  - intros Hij Hf.
    destruct (rank_first_order _ Hij Hzi Hzj Hri Hrj) as [H1 _].
    apply H1. lia.
  - intros Hij Hf.
    destruct (rank_first_order _ Hij Hzi Hzj Hri Hrj) as [_ H2].
    apply H2. lia.
  - pose proof (rank_first_bounds _ _ Hri) as Bi.
    pose proof (rank_first_bounds _ _ Hrj) as Bj.
    rewrite Lz in Bi, Bj.
    destruct (rank_score_spec Hn Bi) as [si [Esi [Ri [R1 [R4 Rm]]]]].
    destruct (rank_score_spec Hn Bj) as [sj [Esj _]].
    exists si, sj.
    split; [rewrite nth_error_map, Hri; simpl; rewrite Esi; reflexivity|].
    split; [rewrite nth_error_map, Hrj; simpl; rewrite Esj; reflexivity|].
    split; [rewrite (rank_score_quartile Hn Bi) in Esi; congruence|].
    split; [rewrite (rank_score_quartile Hn Bj) in Esj; congruence|].
    split; [exact Ri|]. split; [|split; assumption].
    intros Hle. apply (Rm rj sj); [lia|exact Esj].
Qed.

(** In a file with numeric ids customer 10 is seen first and customer 9
    comes first in the table. *)
Lemma frequency_score_by_table_rank_witness :
  first_seen (loaded ledger_numeric_ids)
  = [IdNum (Q2Qc 10); IdNum (Q2Qc 9)]
  /\ map customer (rfm_metrics (loaded ledger_numeric_ids))
     = [IdNum (Q2Qc 9); IdNum (Q2Qc 10)]
  /\ (2 <= length (rfm_metrics (loaded ledger_numeric_ids)))%nat
  /\ StronglySorted (rel_of id_ltb)
       (map customer (rfm_metrics (loaded ledger_numeric_ids)))
  /\ Permutation
       (rank_first
          (map Z.of_nat (map F (rfm_metrics (loaded ledger_numeric_ids)))))
       (seq 1 (length (rfm_metrics (loaded ledger_numeric_ids)))).
Proof.
  assert (H : (2 <= length (rfm_metrics (loaded ledger_numeric_ids)))%nat)
    by (vm_compute; lia).
  split; [vm_compute; reflexivity|].
  split; [vm_compute; reflexivity|].
  split; [exact H|].
  pose proof (@frequency_score_by_table_rank (loaded ledger_numeric_ids) H)
    as T.
  split; [exact (proj1 T)|exact (proj1 (proj2 T))].
Defined.

(** ** Degenerate distributions *)

(** C1, which the code breaks: the specification wants fewer buckets and no
    error on a degenerate distribution.  Here three of four
    customers share the last purchase day, two recency edges are dropped and
    [qcut] raises at line 88; a single customer makes the frequency ranks
    degenerate, and equal totals the monetary values. *)
Theorem degenerate_distribution_raises :
  map R (rfm_metrics (loaded ledger_same_day))
  = [Some 10; Some 0; Some 0; Some 0]%Z
  /\ unique Qeq_bool
       (quantile_edges
          (map (option_map inject_Z)
             (map R (rfm_metrics (loaded ledger_same_day)))) 4)
     = [0; 10 # 4; 10]%Q
  /\ R_Score (map R (rfm_metrics (loaded ledger_same_day)))
     = Raise labels_error
  /\ snd (startup rng0 ledger_same_day) = Raise labels_error
  /\ F_Score [3%nat] = Raise labels_error
  /\ M_Score [10; 10; 10; 10]%Q = Raise labels_error.
Proof. repeat split; vm_compute; reflexivity. Qed.

(** * Further properties *)

(** ** Cleaning and loading *)

Lemma filter_idempotent (A : Type) (p : A -> bool) (l : list A) :
  filter p (filter p l) = filter p l.
Proof.
  induction l as [|a t IH]; simpl; [reflexivity|].
  destruct (p a) eqn:E; simpl; [rewrite E, IH|]; auto.
Qed.

Lemma filter_both (A : Type) (p q : A -> bool) (l : list A) :
  filter p (filter q l) = filter (fun x => q x && p x) l.
Proof.
  induction l as [|a t IH]; simpl; [reflexivity|].
  destruct (q a); simpl; [destruct (p a); rewrite IH|]; auto.
Qed.

(** X1: cleaning a cleaned frame changes nothing, and cleaning decides row
    by row: the cleaned concatenation of two frames is the concatenation of
    the cleaned frames, in the same order. *)
Theorem clean_idempotent_rowwise (df df' : DataFrame) :
  clean (clean df) = clean df
  /\ clean (df ++ df') = clean df ++ clean df'.
Proof.
  unfold clean. split.
  - rewrite !filter_both. apply filter_ext. intros x.
    destruct (dropna_subset x); destruct (gt_cell (Quantity x) 0);
      destruct (gt_cell (UnitPrice x) 0); reflexivity.
  - rewrite !filter_app. reflexivity.
Qed.

Lemma assign_length (A : Type) (set : A -> Row -> Row) (values : nat -> A)
  (i : nat) (df : DataFrame) :
  length (assign set values i df) = length df.
Proof.
  revert i. induction df as [|r t IH]; intros i; simpl; [|rewrite IH];
    reflexivity.
Qed.

Lemma assign_Forall (A : Type) (set : A -> Row -> Row) (values : nat -> A)
  (P : Row -> Prop) (i : nat) (df : DataFrame) :
  (forall k r, P (set (values k) r)) -> Forall P (assign set values i df).
Proof.
  intros H. revert i. induction df as [|r t IH]; intros i; simpl;
    constructor; [apply H|apply IH].
Qed.

Lemma assign_Forall_keep (A : Type) (set : A -> Row -> Row)
  (values : nat -> A) (P : Row -> Prop) (i : nat) (df : DataFrame) :
  (forall a r, P r -> P (set a r)) -> Forall P df ->
  Forall P (assign set values i df).
Proof.
  intros H F. revert i. induction F as [|r t Hr Ht IH]; intros i; simpl;
    constructor; [apply H; exact Hr|apply IH].
Qed.

Lemma assign_keeps (A B : Type) (set : A -> Row -> Row) (values : nat -> A)
  (col : Row -> B) (i : nat) (df : DataFrame) :
  (forall a r, col (set a r) = col r) ->
  map col (assign set values i df) = map col df.
Proof.
  intros H. revert i. induction df as [|r t IH]; intros i; simpl;
    [|rewrite H, IH]; reflexivity.
Qed.

Lemma choice_in (g : Rng) (site : nat) (l : list string) (i : nat) :
  l <> [] -> In (choice g site l i) l.
Proof.
  intros H. unfold choice. apply nth_In.
  apply Nat.mod_upper_bound. destruct l; [congruence|discriminate].
Qed.

Lemma uniform_range (g : Rng) (site : nat) (lo hi : Q) (i : nat) :
  (lo <= hi)%Q -> (0 <= rand_unit g site i <= 1)%Q ->
  (lo <= uniform g site lo hi i <= hi)%Q.
Proof.
  intros H [U0 U1]. unfold uniform.
  generalize dependent (rand_unit g site i). intros u U0 U1.
  split; nra.
Qed.

Lemma prepare_ok (g : Rng) (cols : list string) (rows : list RawRow)
  (df : DataFrame) :
  snd (prepare g (Csv cols rows)) = Ok df ->
  df = stub_rating g cols (stub_category g cols (clean (map coerce rows))).
Proof.
  unfold prepare, require_column. intros H.
  destruct (has_column cols "Quantity"); [|discriminate].
  destruct (has_column cols "UnitPrice"); [|discriminate].
  destruct (has_column cols "InvoiceDate"); [|discriminate].
  destruct (has_column cols "InvoiceNo"); [|discriminate].
  destruct (has_column cols "CustomerID"); [|discriminate].
  simpl in H. inversion H. reflexivity.
Qed.

Lemma prepare_retained (g : Rng) (cols : list string) (rows : list RawRow)
  (df : DataFrame) :
  snd (prepare g (Csv cols rows)) = Ok df -> Forall retained df.
Proof.
  intros H. apply prepare_ok in H. subst df.
  assert (Hc : Forall retained (clean (map coerce rows))).
  { apply Forall_forall. intros x Hx.
    apply clean_keeps in Hx. destruct Hx as [r [_ [_ Hr]]]. exact Hr. }
  unfold stub_rating, stub_category.
  destruct (has_column cols "Category"); destruct (has_column cols "Rating");
    auto using assign_Category_retained, assign_Rating_retained.
Qed.

(** X2: when the file has neither a Category nor a Rating column, every
    prepared row gets a category of the fixed list and, for draws between 0
    and 1, a rating between 3 and 5, both included; the number of rows and
    their revenue column are those of the cleaned rows. *)
Theorem stub_columns_filled (g : Rng) (cols : list string)
  (rows : list RawRow) (df : DataFrame) :
  snd (prepare g (Csv cols rows)) = Ok df ->
  has_column cols "Category" = false ->
  has_column cols "Rating" = false ->
  (forall i, 0 <= rand_unit g 1 i <= 1)%Q ->
  Forall (fun r => (exists c, Category r = Some c /\ In c categories_stub)
                   /\ exists x, Rating r = Some x /\ (3 <= x <= 5)%Q) df
  /\ map Revenue df = map Revenue (clean (map coerce rows))
  /\ length df = length (clean (map coerce rows)).
Proof.
  intros H Hc Hr Hu. apply prepare_ok in H. subst df.
  unfold stub_rating, stub_category. rewrite Hc, Hr.
  split; [|split].
  - apply Forall_and.
    + set (inner := assign set_Category _ 0 _).
      assert (Hin : Forall (fun r => exists c, Category r = Some c
                                               /\ In c categories_stub) inner).
      { apply assign_Forall. intros k r. eexists. split; [reflexivity|].
        apply choice_in. discriminate. }
      apply assign_Forall_keep; [|exact Hin].
      intros a r Hr'. exact Hr'.
    + apply assign_Forall. intros k r. eexists. split; [reflexivity|].
      apply (@uniform_range g 1%nat 3 5 k); [lra|apply Hu].
  - rewrite !assign_keeps by reflexivity. reflexivity.
  - rewrite !assign_length. reflexivity.
Qed.

Lemma stub_columns_filled_witness :
  length (loaded ledger_without_stubs) = 2%nat.
Proof.
  assert (H : snd (prepare rng0 ledger_without_stubs)
              = Ok (loaded ledger_without_stubs)) by (vm_compute; reflexivity).
  destruct (@stub_columns_filled rng0 columns_without_stubs _ _ H)
    as [_ [_ L]].
  - vm_compute. reflexivity.
  - vm_compute. reflexivity.
  - intros i. simpl. split; [apply Qle_refl|discriminate].
  - rewrite L. vm_compute. reflexivity.
Defined.

Lemma example_row_retained (g : Rng) (i : nat) :
  (forall site k, 0 <= rand_unit g site k)%Q -> retained (example_row g i).
Proof.
  intros Hu. unfold retained, example_row. cbn [InvoiceNo CustomerID Quantity
    UnitPrice Revenue].
  split; [discriminate|]. split; [discriminate|].
  split; eexists; (split; [reflexivity|]).
  - change 0%Q with (inject_Z 0). rewrite <- Zlt_Qlt. unfold randint. lia.
  - unfold uniform. specialize (Hu 3%nat i).
    generalize dependent (rand_unit g 3 i). intros u Hu. nra.
Qed.

(** X3: whatever the source, every row the load step leaves has a non-null
    invoice and customer and a positive quantity and price, provided the
    random floats are not negative: the cleaned rows have it by cleaning,
    the example rows by construction. *)
Theorem loaded_rows_are_valid (g : Rng) (src : Source) (df : DataFrame) :
  (forall site k, 0 <= rand_unit g site k)%Q ->
  snd (load g src) = Ok df ->
  Forall retained df.
Proof.
  intros Hu H. unfold load in H.
  destruct (prepare g src) as [log [df0|e]] eqn:E; simpl in H;
    inversion H; subst df; clear H.
  - destruct src as [|cols rows]; [discriminate|].
    assert (E' : snd (prepare g (Csv cols rows)) = Ok df0)
      by (rewrite E; reflexivity).
    apply prepare_ok in E'. subst df0.
    assert (Hc : Forall retained (clean (map coerce rows))).
    { apply Forall_forall. intros x Hx.
      apply clean_keeps in Hx. destruct Hx as [r [_ [_ Hr]]]. exact Hr. }
    unfold stub_rating, stub_category.
    destruct (has_column cols "Category"); destruct (has_column cols "Rating");
      auto using assign_Category_retained, assign_Rating_retained.
  - unfold example_data. apply Forall_forall. intros x Hx.
    apply in_map_iff in Hx. destruct Hx as [i [Ei _]]. subst x.
    apply example_row_retained. exact Hu.
Qed.

Lemma loaded_rows_are_valid_witness :
  Forall retained (example_data rng0).
Proof.
  apply (@loaded_rows_are_valid rng0 Unreadable).
  - intros site k. apply Qle_refl.
  - reflexivity.
Defined.

(** ** The RFM table *)

Section UniqueSpec.
Variable A : Type.
Variable eqb : A -> A -> bool.
Hypothesis eqb_spec : forall a b, eqb a b = true <-> a = b.

Lemma mem_In (x : A) (l : list A) : mem eqb x l = true <-> In x l.
Proof.
  unfold mem. rewrite existsb_exists. split.
  - intros [y [Hy E]]. apply eqb_spec in E. subst. exact Hy.
  - intros H. exists x. split; [exact H|]. apply eqb_spec. reflexivity.
Qed.

Lemma unique_from_spec (seen l : list A) :
  NoDup (unique_from eqb seen l)
  /\ forall x, In x (unique_from eqb seen l) <-> In x l /\ ~ In x seen.
Proof.
  revert seen. induction l as [|a t IH]; intros seen; simpl.
  - split; [constructor|]. intros x. tauto.
  - destruct (mem eqb a seen) eqn:E.
    + destruct (IH seen) as [N S]. split; [exact N|].
      apply mem_In in E. intros x. rewrite S. split.
      * intros [H1 H2]. auto.
      * intros [[H1|H1] H2]; [subst; contradiction|auto].
    + assert (Ha : ~ In a seen).
      { intros H. apply mem_In in H. congruence. }
      destruct (IH (a :: seen)) as [N S]. split.
      * constructor; [|exact N]. rewrite S. simpl. tauto.
      * intros x. simpl. rewrite S. simpl.
        destruct (eqb a x) eqn:Ex.
        -- apply eqb_spec in Ex. subst x. tauto.
        -- assert (a <> x).
           { intros H. apply eqb_spec in H. congruence. }
           tauto.
Qed.

Lemma unique_NoDup (l : list A) : NoDup (unique eqb l).
Proof. apply (unique_from_spec [] l). Qed.

Lemma unique_In (l : list A) (x : A) : In x (unique eqb l) <-> In x l.
Proof.
  unfold unique. rewrite (proj2 (unique_from_spec [] l)). simpl. tauto.
Qed.
End UniqueSpec.

Lemma dropna_In (A B : Type) (f : A -> option B) (l : list A) (y : B) :
  In y (dropna (map f l)) <-> exists a, In a l /\ f a = Some y.
Proof.
  induction l as [|a t IH]; simpl.
  - split; [intros []|intros [a [[] _]]].
  - destruct (f a) as [b|] eqn:E; simpl; rewrite IH; split.
    + intros [H|[a' [H1 H2]]]; [exists a; subst; auto|exists a'; auto].
    + intros [a' [[H|H] H2]]; [subst; left; congruence|right; eauto].
    + intros [a' [H1 H2]]. eauto.
    + intros [a' [[H|H] H2]]; [subst; congruence|eauto].
Qed.

Section GroupbyKeys.
Variable K : Type.
Variables eqb leb : K -> K -> bool.
Hypothesis eqb_spec : forall a b, eqb a b = true <-> a = b.
Variable key : Row -> option K.

Lemma groupby_keys_In (df : DataFrame) (k : K) :
  In k (groupby_keys eqb leb key df) <-> exists r, In r df /\ key r = Some k.
Proof.
  unfold groupby_keys.
  rewrite sort_in, (unique_In eqb eqb_spec), dropna_In.
  reflexivity.
Qed.

Lemma groupby_keys_NoDup (df : DataFrame) :
  NoDup (groupby_keys eqb leb key df).
Proof.
  unfold groupby_keys.
  apply (Permutation_NoDup (Permutation_sym (sort_perm leb _))).
  apply (unique_NoDup eqb eqb_spec).
Qed.

Lemma get_group_In (df : DataFrame) (k : K) (r : Row) :
  In r (get_group eqb key df k) <-> In r df /\ key r = Some k.
Proof.
  unfold get_group. rewrite filter_In.
  destruct (key r) as [k'|]; simpl.
  - rewrite eqb_spec. split; intros [H1 H2]; split; congruence.
  - split; intros [H1 H2]; discriminate.
Qed.
End GroupbyKeys.

Lemma customers_In (df : DataFrame) (c : Id) :
  In c (groupby_keys id_eqb id_leb CustomerID df)
  <-> exists r, In r df /\ CustomerID r = Some c.
Proof. apply (@groupby_keys_In _ id_eqb id_leb id_eqb_eq). Qed.

Lemma customer_group_In (df : DataFrame) (c : Id) (r : Row) :
  In r (get_group id_eqb CustomerID df c)
  <-> In r df /\ CustomerID r = Some c.
Proof. apply (@get_group_In _ id_eqb id_eqb_eq). Qed.

Lemma rfm_metrics_In (df : DataFrame) (m : Metrics) :
  In m (rfm_metrics df) ->
  In (customer m) (groupby_keys id_eqb id_leb CustomerID df)
  /\ R m = recency (date_max (map InvoiceDate df))
             (map InvoiceDate (get_group id_eqb CustomerID df (customer m)))
  /\ F m = nunique String.eqb
             (map InvoiceNo (get_group id_eqb CustomerID df (customer m)))
  /\ M m = Qsum (dropna (map Revenue
                           (get_group id_eqb CustomerID df (customer m)))).
Proof.
  unfold rfm_metrics. intros H. apply in_map_iff in H.
  destruct H as [c [E Hc]]. subst m. simpl. auto.
Qed.

(** X4: the RFM table has exactly one row per customer that occurs in the
    ledger, and its number of rows is the KPI [total_customers]. *)
Theorem rfm_one_row_per_customer (df : DataFrame) :
  NoDup (map customer (rfm_metrics df))
  /\ (forall c, In c (map customer (rfm_metrics df))
                <-> exists r, In r df /\ CustomerID r = Some c)
  /\ length (rfm_metrics df) = total_customers df.
Proof.
  rewrite rfm_metrics_customers.
  split; [apply (@groupby_keys_NoDup _ id_eqb id_leb id_eqb_eq)|].
  split; [intros c; apply customers_In|].
  rewrite <- (length_map customer), rfm_metrics_customers.
  unfold groupby_keys, total_customers, nunique. apply sort_length.
Qed.

Lemma fold_max_spec (t : Z) (l : list Z) :
  In (fold_right Z.max t l) (t :: l)
  /\ forall u, In u (t :: l) -> (u <= fold_right Z.max t l)%Z.
Proof.
  induction l as [|a l [IH1 IH2]]; simpl.
  - split; [auto|]. intros u [E|[]]. lia.
  - split.
    + destruct (Z.max_spec a (fold_right Z.max t l)) as [[_ E]|[_ E]];
        rewrite E; simpl in IH1; tauto.
    + intros u [E|[E|H]].
      * subst. pose proof (IH2 u (or_introl eq_refl)). lia.
      * subst. lia.
      * pose proof (IH2 u (or_intror H)). lia.
Qed.

Lemma date_max_spec (s : list (option Z)) :
  match date_max s with
  | Some t => In (Some t) s /\ forall u, In (Some u) s -> (u <= t)%Z
  | None => forall u, ~ In (Some u) s
  end.
Proof.
  unfold date_max.
  assert (D : forall u, In u (dropna s) <-> In (Some u) s).
  { intros u. rewrite <- (map_id s) at 1. rewrite dropna_In.
    split; [intros [a [H E]]; subst; exact H|intros H; eauto]. }
  destruct (dropna s) as [|t l].
  - intros u H. apply D in H. exact H.
  - destruct (fold_max_spec t l) as [H1 H2]. split.
    + apply D. exact H1.
    + intros u H. apply H2, D. exact H.
Qed.

(** X5: recency is never negative, and a customer who bought at the latest
    date of the ledger has recency 0. *)
Theorem recency_nonnegative_zero_for_latest (df : DataFrame) :
  (forall m r, In m (rfm_metrics df) -> R m = Some r -> (0 <= r)%Z)
  /\ forall row c t,
      In row df -> CustomerID row = Some c -> InvoiceDate row = Some t ->
      date_max (map InvoiceDate df) = Some t ->
      exists m, In m (rfm_metrics df) /\ customer m = c /\ R m = Some 0%Z.
Proof.
  split.
  - intros m r Hm Hr. apply rfm_metrics_In in Hm.
    destruct Hm as [_ [ER _]]. rewrite ER in Hr. unfold recency in Hr.
    pose proof (date_max_spec (map InvoiceDate df)) as Hall.
    pose proof (date_max_spec
                  (map InvoiceDate (get_group id_eqb CustomerID df (customer m))))
      as Hgrp.
    destruct (date_max (map InvoiceDate df)) as [today|]; [|discriminate].
    destruct (date_max _) as [last|]; [|discriminate].
    inversion Hr; subst r. destruct Hall as [_ Hall]. destruct Hgrp as [Hg _].
    assert (L : (last <= today)%Z).
    { apply Hall. apply in_map_iff in Hg. destruct Hg as [x [Ex Hx]].
      apply customer_group_In in Hx. apply in_map_iff. exists x. tauto. }
    apply Z.div_pos; unfold ns_per_day; lia.
  - intros row c t Hrow Hc Ht Hmax.
    assert (Hk : In c (groupby_keys id_eqb id_leb CustomerID df))
      by (apply customers_In; eauto).
    exists {| customer := c;
              R := recency (date_max (map InvoiceDate df))
                     (map InvoiceDate (get_group id_eqb CustomerID df c));
              F := nunique String.eqb
                     (map InvoiceNo (get_group id_eqb CustomerID df c));
              M := Qsum (dropna (map Revenue
                                   (get_group id_eqb CustomerID df c))) |}.
    split; [|split; [reflexivity|]].
    + unfold rfm_metrics. apply in_map_iff. exists c. split; [reflexivity|].
      exact Hk.
    + cbn [R]. unfold recency. rewrite Hmax.
      pose proof (date_max_spec (map InvoiceDate df)) as Hall.
      rewrite Hmax in Hall. destruct Hall as [_ Hall].
      pose proof (date_max_spec
                    (map InvoiceDate (get_group id_eqb CustomerID df c)))
        as Hgrp.
      assert (Hin : In (Some t)
                       (map InvoiceDate (get_group id_eqb CustomerID df c))).
      { apply in_map_iff. exists row. split; [exact Ht|].
        apply customer_group_In. auto. }
      destruct (date_max (map InvoiceDate (get_group id_eqb CustomerID df c)))
        as [last|]; [|exfalso; apply (Hgrp t Hin)].
      destruct Hgrp as [Hl Hle].
      assert (E : last = t).
      { apply Z.le_antisymm; [|apply Hle; exact Hin].
        apply Hall. apply in_map_iff in Hl. destruct Hl as [x [Ex Hx]].
        apply customer_group_In in Hx. apply in_map_iff. exists x. tauto. }
      subst last. rewrite Z.sub_diag. reflexivity.
Qed.

Lemma recency_nonnegative_zero_for_latest_witness :
  exists m, In m (rfm_metrics (loaded ledger_ties))
            /\ customer m = IdText "c2" /\ R m = Some 0%Z.
Proof.
  destruct (recency_nonnegative_zero_for_latest (loaded ledger_ties))
    as [_ H].
  apply (H (coerce (sale "i2" "c2" "mug" (on_day 8) (Num 2) (Num 5)))
           (IdText "c2") (8 * ns_per_day)%Z).
  - vm_compute. right. left. reflexivity.
  - reflexivity.
  - reflexivity.
  - vm_compute. reflexivity.
Defined.

(** X6: on a cleaned ledger every customer of the RFM table has frequency
    at least 1. *)
Theorem frequency_at_least_one (df : DataFrame) (m : Metrics) :
  Forall retained df -> In m (rfm_metrics df) -> (1 <= F m)%nat.
Proof.
  intros Hdf Hm. apply rfm_metrics_In in Hm.
  destruct Hm as [Hk [_ [EF _]]].
  apply customers_In in Hk. destruct Hk as [r [Hr Hc]].
  assert (Hg : In r (get_group id_eqb CustomerID df (customer m)))
    by (apply customer_group_In; auto).
  rewrite Forall_forall in Hdf.
  rewrite EF. unfold nunique.
  destruct (Hdf r Hr) as [Hi _].
  destruct (InvoiceNo r) as [i|] eqn:Ei; [|congruence].
  assert (Hin : In i (unique String.eqb
                        (dropna (map InvoiceNo
                                   (get_group id_eqb CustomerID df
                                              (customer m)))))).
  { apply (unique_In String.eqb String.eqb_eq). apply dropna_In. eauto. }
  destruct (unique String.eqb _); [destruct Hin|simpl; lia].
Qed.

Lemma frequency_at_least_one_witness :
  Forall (fun m => (1 <= F m)%nat) (rfm_metrics (loaded ledger_ties)).
Proof.
  apply Forall_forall. intros m Hm.
  apply (@frequency_at_least_one (loaded ledger_ties) m); [|exact Hm].
  apply (@prepare_retained rng0 all_columns
           [sale "i1" "c1" "lamp" (on_day 0) (Num 1) (Num 10);
            sale "i2" "c2" "mug" (on_day 8) (Num 2) (Num 5);
            sale "i3" "c2" "pen" (on_day 8) (Num 1) (Num 3)]%string).
  vm_compute. reflexivity.
Defined.

(** ** KPIs *)

Section Nunique.
Variable A : Type.
Variable eqb : A -> A -> bool.
Hypothesis eqb_spec : forall a b, eqb a b = true <-> a = b.

Lemma nunique_pos (s : list (option A)) (x : A) :
  In (Some x) s -> (1 <= nunique eqb s)%nat.
Proof.
  intros H. unfold nunique.
  assert (Hin : In x (unique eqb (dropna s))).
  { apply (unique_In eqb eqb_spec).
    rewrite <- (map_id s). apply dropna_In. eauto. }
  destruct (unique eqb (dropna s)); [destruct Hin|simpl; lia].
Qed.

Lemma nunique_le_length (s : list (option A)) :
  (nunique eqb s <= length s)%nat.
Proof.
  unfold nunique, unique.
  pose proof (unique_from_length eqb [] (dropna s)) as H.
  assert (L : (length (dropna s) <= length s)%nat).
  { clear H. induction s as [|[a|] t IH]; simpl; lia. }
  lia.
Qed.
End Nunique.

(** X8: the KPIs of a cleaned, non-empty ledger: there is at least one
    order and one customer, and no more of either than rows; so the guard of
    line 112 holds and the average order value is the quotient of the total
    revenue by the number of orders, not the fallback 0. *)
Theorem kpis_of_cleaned_ledger (df : DataFrame) :
  Forall retained df -> df <> [] ->
  (1 <= total_orders df <= length df)%nat
  /\ (1 <= total_customers df <= length df)%nat
  /\ avg_order_value df
     = (total_revenue df / inject_Z (Z.of_nat (total_orders df)))%Q.
Proof.
  intros H Hne. destruct df as [|r t]; [congruence|]. clear Hne.
  rewrite Forall_forall in H.
  destruct (H r (or_introl eq_refl)) as [Hi [Hc _]].
  assert (O : (1 <= total_orders (r :: t))%nat).
  { destruct (InvoiceNo r) as [i|] eqn:E; [|congruence].
    apply (@nunique_pos _ String.eqb String.eqb_eq _ i).
    apply in_map_iff. exists r. simpl. auto. }
  assert (C : (1 <= total_customers (r :: t))%nat).
  { destruct (CustomerID r) as [c|] eqn:E; [|congruence].
    apply (@nunique_pos _ id_eqb id_eqb_eq _ c).
    apply in_map_iff. exists r. simpl. auto. }
  split; [split; [exact O|]|split; [split; [exact C|]|]].
  - unfold total_orders.
    rewrite <- (length_map InvoiceNo (r :: t)). apply nunique_le_length.
  - unfold total_customers.
    rewrite <- (length_map CustomerID (r :: t)). apply nunique_le_length.
  - unfold avg_order_value.
    destruct (Nat.ltb_spec 0 (total_orders (r :: t))); [reflexivity|lia].
Qed.

Lemma kpis_of_cleaned_ledger_witness :
  (1 <= total_orders (loaded ledger_ties) <= 3)%nat.
Proof.
  apply (@kpis_of_cleaned_ledger (loaded ledger_ties)).
  - apply (@prepare_retained rng0 all_columns
             [sale "i1" "c1" "lamp" (on_day 0) (Num 1) (Num 10);
              sale "i2" "c2" "mug" (on_day 8) (Num 2) (Num 5);
              sale "i3" "c2" "pen" (on_day 8) (Num 1) (Num 3)]%string).
    vm_compute. reflexivity.
  - vm_compute. discriminate.
Defined.

(** ** Scores *)

Lemma quantile_ge_bound (s : list Q) (k : nat) (bound : Q) :
  s <> [] -> (k <= 4)%nat ->
  (forall y, In y s -> (bound <= y)%Q) ->
  (bound <= quantile 4 s k)%Q.
Proof.
  intros Hs Hk Hb. unfold quantile.
  assert (Hn : (0 < length s)%nat) by (destruct s; [congruence|simpl; lia]).
  set (p := ((length s - 1) * k)%nat).
  assert (Hp : (p <= (length s - 1) * 4)%nat) by (unfold p; nia).
  assert (Hlo : (p / 4 < length s)%nat).
  { apply Nat.Div0.div_le_mono with (c := 4%nat) in Hp.
    rewrite Nat.div_mul in Hp by lia. lia. }
  assert (Ha : (bound <= nth (p / 4) s 0)%Q) by (apply Hb, nth_In; exact Hlo).
  assert (Hb' : (bound <= nth (S (p / 4)) s (nth (p / 4) s 0))%Q).
  { destruct (Nat.lt_ge_cases (S (p / 4)) (length s)) as [H|H].
    - apply Hb, nth_In. exact H.
    - rewrite nth_overflow by exact H. exact Ha. }
  pose proof (Nat.mod_upper_bound p 4) as Hr.
  generalize dependent (nth (S (p / 4)) s (nth (p / 4) s 0%Q)).
  generalize dependent (nth (p / 4) s 0%Q).
  intros a Ha b Hb'.
  destruct (p mod 4)%nat as [|[|[|[|r]]]]; try lia; try exact Ha;
    cbn [Z.of_nat Pos.of_nat Pos.of_succ_nat Pos.succ]; lra.
Qed.

Lemma unique_from_all_seen (seen l : list Q) :
  (forall x, In x l -> mem Qeq_bool x seen = true) ->
  unique_from Qeq_bool seen l = [].
Proof.
  induction l as [|a t IH]; intros H; simpl; [reflexivity|].
  rewrite (H a (or_introl eq_refl)). apply IH.
  intros x Hx. apply H. right. exact Hx.
Qed.

Lemma unique_from_first (a : Q) (l : list Q) :
  unique_from Qeq_bool [] (a :: l) = a :: unique_from Qeq_bool [a] l.
Proof. reflexivity. Qed.

Lemma qcut_constant_raises (x : list (option Q)) (v : Q) (labels : list Z) :
  length labels = 4%nat ->
  In (Some v) x -> (forall w, In (Some w) x -> w == v)%Q ->
  qcut x 4 labels = Raise labels_error.
Proof.
  intros Hl Hv Hall.
  apply qcut_dropped_edge_raises; [exact Hl|].
  unfold quantile_edges.
  assert (D : forall u, In u (dropna x) <-> In (Some u) x).
  { intros u. rewrite <- (map_id x) at 1. rewrite dropna_In.
    split; [intros [a [H E]]; subst; exact H|intros H; eauto]. }
  assert (Hs : forall y, In y (sort Qle_bool (dropna x)) -> (y == v)%Q).
  { intros y Hy. apply Hall, D. apply (sort_in Qle_bool). exact Hy. }
  assert (Hne : sort Qle_bool (dropna x) <> []).
  { intros E. assert (Hin : In v (sort Qle_bool (dropna x)))
      by (apply sort_in, D; exact Hv).
    rewrite E in Hin. destruct Hin. }
  destruct (sort Qle_bool (dropna x)) as [|a t] eqn:Es; [congruence|].
  rewrite <- Es in *. unfold linspace. cbn [seq map].
  assert (Q : forall k, (k <= 4)%nat ->
                        (quantile 4 (sort Qle_bool (dropna x)) k == v)%Q).
  { intros k Hk. apply Qle_antisym.
    - apply quantile_le_bound; [exact Hne|exact Hk|].
      intros y Hy. rewrite (Hs y Hy). apply Qle_refl.
    - apply quantile_ge_bound; [exact Hne|exact Hk|].
      intros y Hy. rewrite (Hs y Hy). apply Qle_refl. }
  unfold unique. rewrite unique_from_first.
  rewrite unique_from_all_seen; [simpl; lia|].
  intros e He. cbn [mem existsb]. apply orb_true_iff. left.
  apply Qeq_bool_iff.
  simpl in He.
  repeat (destruct He as [He|He]; [subst e; rewrite !Q by lia; reflexivity|]).
  destruct He.
Qed.

(** X9: a column whose values are all the same makes the scoring raise:
    equal recencies at line 88, equal monetary totals at line 90. *)
Theorem constant_column_raises (v : Z) (w : Q) :
  (forall r, In (Some v) r -> (forall u, In (Some u) r -> u = v) ->
             R_Score r = Raise labels_error)
  /\ (forall m, m <> [] -> (forall u, In u m -> u == w)%Q ->
                M_Score m = Raise labels_error).
Proof.
  split.
  - intros r Hv Hall. unfold R_Score.
    apply (@qcut_constant_raises _ (inject_Z v)); [reflexivity| |].
    + apply in_map_iff. exists (Some v). auto.
    + intros q Hq. apply in_map_iff in Hq.
      destruct Hq as [[u|] [E Hu]]; [|discriminate].
      inversion E. rewrite (Hall u Hu). reflexivity.
  - intros m Hne Hall. unfold M_Score.
    destruct m as [|a t]; [congruence|].
    apply (@qcut_constant_raises _ a); [reflexivity| |].
    + left. reflexivity.
    + intros q Hq. apply in_map_iff in Hq. destruct Hq as [u [E Hu]].
      inversion E. subst q.
      rewrite (Hall u Hu), (Hall a (or_introl eq_refl)). reflexivity.
Qed.

Lemma constant_column_raises_witness :
  R_Score [Some 3; None; Some 3; Some 3]%Z = Raise labels_error
  /\ M_Score [5; 10 # 2; 5]%Q = Raise labels_error.
Proof.
  destruct (constant_column_raises 3%Z 5%Q) as [HR HM]. split.
  - apply HR; [simpl; auto|].
    simpl. intros u [E|[E|[E|[E|[]]]]]; congruence.
  - apply HM; [discriminate|].
    simpl. intros u [E|[E|[E|[]]]]; subst; reflexivity.
Defined.

Lemma bin_id_between (e0 e1 e2 e3 e4 v : Q) :
  (e0 <= v)%Q -> (v <= e4)%Q ->
  exists id, bin_id [e0; e1; e2; e3; e4] (Some v) = Some id
             /\ (1 <= id <= 4)%nat
             /\ id = if Qeq_bool v e0 then 1%nat
                     else searchsorted_left [e0; e1; e2; e3; e4] v.
Proof.
  intros L0 L4. destruct (Qeq_bool v e0) eqn:E.
  - exists 1%nat. split; [|split; [lia|reflexivity]].
    apply bin_id_first; [exact E|simpl; lia].
  - assert (B : (1 <= searchsorted_left [e0; e1; e2; e3; e4] v <= 4)%nat).
    { unfold searchsorted_left. rewrite !filter_length_cons.
      cbn [filter length].
      assert (K0 : Qltb e0 v = true).
      { apply Qltb_lt. apply Qeq_bool_false in E.
        destruct (Qle_lt_or_eq _ _ L0) as [H|H]; [exact H|].
        exfalso. apply E. symmetry. exact H. }
      assert (K4 : Qltb e4 v = false) by (apply Qltb_false; exact L4).
      rewrite K0, K4.
      destruct (Qltb e1 v); destruct (Qltb e2 v); destruct (Qltb e3 v); lia. }
    exists (searchsorted_left [e0; e1; e2; e3; e4] v).
    split; [|split; [exact B|reflexivity]].
    apply bin_id_other; [exact E|lia|simpl; lia].
Qed.

Lemma bin_id_monotone (e0 e1 e2 e3 e4 v w : Q) (i j : nat) :
  (e0 <= v)%Q -> (v <= w)%Q -> (w <= e4)%Q ->
  bin_id [e0; e1; e2; e3; e4] (Some v) = Some i ->
  bin_id [e0; e1; e2; e3; e4] (Some w) = Some j ->
  (i <= j)%nat.
Proof.
  intros L0 Lvw L4 Hi Hj.
  destruct (@bin_id_between e0 e1 e2 e3 e4 v) as [i' [Ei [Bi Di]]];
    [exact L0|lra|].
  destruct (@bin_id_between e0 e1 e2 e3 e4 w) as [j' [Ej [Bj Dj]]];
    [lra|exact L4|].
  rewrite Hi in Ei. rewrite Hj in Ej. inversion Ei. inversion Ej. subst i' j'.
  destruct (Qeq_bool v e0) eqn:Ev; [lia|].
  destruct (Qeq_bool w e0) eqn:Ew.
  - apply Qeq_bool_iff in Ew. apply Qeq_bool_false in Ev.
    exfalso. apply Ev. apply Qle_antisym; [lra|exact L0].
  - subst i j. unfold searchsorted_left. apply filter_length_mono.
    intros b. rewrite !Qltb_lt. intros H. lra.
Qed.

(** When [qcut] into quartiles succeeds, a missing value gets a missing
    score, every other value the label of a bin 1..4, and a larger value
    never an earlier bin. *)
Lemma qcut_ok_ordered (x : list (option Q)) (labels : list Z)
  (scores : list (option Z)) :
  length labels = 4%nat ->
  qcut x 4 labels = Ok scores ->
  length scores = length x
  /\ (forall i, nth_error x i = Some None -> nth_error scores i = Some None)
  /\ forall i j v w,
      nth_error x i = Some (Some v) -> nth_error x j = Some (Some w) ->
      (v <= w)%Q ->
      exists a b, (1 <= a <= b)%nat /\ (b <= 4)%nat
                  /\ nth_error scores i = Some (nth_error labels (a - 1))
                  /\ nth_error scores j = Some (nth_error labels (b - 1)).
Proof.
  intros Hl H. apply qcut_ok_bins in H; [|exact Hl]. cbv zeta in H.
  destruct H as [Hs [_ Hsc]]. cbn [map] in Hsc.
  rewrite quantile_first, quantile_last in Hsc.
  set (s := sort Qle_bool (dropna x)) in *.
  pose proof (Qsort_strongly_sorted (dropna x)) as Hsorted. fold s in Hsorted.
  assert (Hin : forall i v, nth_error x i = Some (Some v) -> In v s).
  { intros i v Hi. apply sort_in. rewrite <- (map_id x). apply dropna_In.
    exists (Some v). split; [|reflexivity]. eapply nth_error_In. exact Hi. }
  split; [rewrite Hsc; apply length_map|]. split.
  - intros i Hi. rewrite Hsc, nth_error_map, Hi. reflexivity.
  - intros i j v w Hi Hj Hvw.
    assert (Lv : (nth 0 s 0 <= v)%Q)
      by (apply sorted_head_least; [exact Hsorted|eapply Hin; exact Hi]).
    assert (Lw : (w <= nth (length s - 1) s 0)%Q)
      by (apply sorted_last_greatest; [exact Hsorted|eapply Hin; exact Hj]).
    destruct (@bin_id_between (nth 0 s 0%Q) (quantile 4 s 1) (quantile 4 s 2)
                (quantile 4 s 3) (nth (length s - 1) s 0%Q) v)
      as [a [Ea [Ba _]]];
      [exact Lv|apply Qle_trans with w; assumption|].
    destruct (@bin_id_between (nth 0 s 0%Q) (quantile 4 s 1) (quantile 4 s 2)
                (quantile 4 s 3) (nth (length s - 1) s 0%Q) w)
      as [b [Eb [Bb _]]];
      [apply Qle_trans with v; assumption|exact Lw|].
    exists a, b.
    pose proof (@bin_id_monotone _ _ _ _ _ _ _ _ _ Lv Hvw Lw Ea Eb).
    split; [lia|]. split; [lia|].
    rewrite Hsc, !nth_error_map, Hi, Hj. cbn [option_map].
    rewrite Ea, Eb. auto.
Qed.

Lemma F_Score_small_raises (f : list nat) :
  (length f <= 1)%nat -> F_Score f = Raise labels_error.
Proof.
  intros H. destruct f as [|a [|b t]]; [reflexivity| |simpl in H; lia].
  unfold F_Score. cbn [F_rank rank_first rank_first_from map app].
  eapply qcut_constant_raises; [reflexivity|left; reflexivity|].
  intros w [E|[]]. inversion E. reflexivity.
Qed.

Lemma zip_scores_nth (ms : list Metrics) (rs fs gs : list (option Z))
  (i : nat) (a : Scored) :
  nth_error (zip_scores ms rs fs gs) i = Some a ->
  nth_error ms i = Some (metrics a)
  /\ nth_error rs i = Some (r_score a)
  /\ nth_error fs i = Some (f_score a)
  /\ nth_error gs i = Some (m_score a)
  /\ rfm_score a = RFM_Score (r_score a) (f_score a) (m_score a)
  /\ segment a = segment_of (rfm_score a).
Proof.
  revert rs fs gs i.
  induction ms as [|m ms IH]; intros [|r rs] [|f fs] [|g gs] i H;
    try (destruct i; simpl in H; discriminate).
  destruct i as [|i]; simpl in H.
  - inversion H. subst a. simpl. repeat split; reflexivity.
  - cbn [nth_error]. apply IH. exact H.
Qed.

Lemma zip_scores_metrics (ms : list Metrics) (rs fs gs : list (option Z)) :
  length rs = length ms -> length fs = length ms -> length gs = length ms ->
  map metrics (zip_scores ms rs fs gs) = ms.
Proof.
  revert rs fs gs.
  induction ms as [|m ms IH]; intros [|r rs] [|f fs] [|g gs] H1 H2 H3;
    try discriminate; [reflexivity|].
  simpl. rewrite IH; auto.
Qed.

Lemma compute_rfm_ok (df : DataFrame) (rfm : list Scored) :
  compute_rfm df = Ok rfm ->
  exists rs fs gs,
    R_Score (map R (rfm_metrics df)) = Ok rs
    /\ F_Score (map F (rfm_metrics df)) = Ok fs
    /\ M_Score (map M (rfm_metrics df)) = Ok gs
    /\ rfm = zip_scores (rfm_metrics df) rs fs gs.
Proof.
  unfold compute_rfm. intros H.
  destruct (R_Score (map R (rfm_metrics df))) as [rs|]; [|discriminate].
  destruct (F_Score (map F (rfm_metrics df))) as [fs|]; [|discriminate].
  destruct (M_Score (map M (rfm_metrics df))) as [gs|]; [|discriminate].
  simpl in H. inversion H. exists rs, fs, gs. auto.
Qed.

Lemma F_Score_ok_inv (f : list nat) (fs : list (option Z)) :
  F_Score f = Ok fs ->
  (2 <= length f)%nat
  /\ fs = map (rank_score (length f)) (rank_first (map Z.of_nat f)).
Proof.
  intros H.
  assert (Hn : (2 <= length f)%nat).
  { destruct (Nat.le_gt_cases (length f) 1) as [L|L]; [|lia].
    rewrite (F_Score_small_raises f L) in H. discriminate. }
  split; [exact Hn|]. rewrite (F_Score_ok f Hn) in H. inversion H. reflexivity.
Qed.

Lemma labels_descending (a : nat) :
  (1 <= a <= 4)%nat ->
  nth_error [4; 3; 2; 1]%Z (a - 1) = Some (Z.of_nat (5 - a)).
Proof.
  intros H. destruct a as [|[|[|[|[|a]]]]]; try lia; reflexivity.
Qed.

Lemma labels_ascending (a : nat) :
  (1 <= a <= 4)%nat ->
  nth_error [1; 2; 3; 4]%Z (a - 1) = Some (Z.of_nat a).
Proof.
  intros H. destruct a as [|[|[|[|[|a]]]]]; try lia; reflexivity.
Qed.

Lemma code_length_3 (r f m : Z) :
  (1 <= r <= 4)%Z -> (1 <= f <= 4)%Z -> (1 <= m <= 4)%Z ->
  String.length (RFM_Score (Some r) (Some f) (Some m)) = 3%nat.
Proof.
  intros Hr Hf Hm.
  assert (Er : (r = 1 \/ r = 2 \/ r = 3 \/ r = 4)%Z) by lia.
  assert (Ef : (f = 1 \/ f = 2 \/ f = 3 \/ f = 4)%Z) by lia.
  assert (Em : (m = 1 \/ m = 2 \/ m = 3 \/ m = 4)%Z) by lia.
  destruct Er as [H|[H|[H|H]]]; destruct Ef as [H'|[H'|[H'|H']]];
    destruct Em as [H''|[H''|[H''|H'']]]; subst; reflexivity.
Qed.

Lemma missing_recency_is_Others (f m : option Z) :
  segment_of (RFM_Score None f m) = "Others"%string.
Proof. reflexivity. Qed.

Lemma scored_table_rows (df : DataFrame) (rfm : list Scored) :
  compute_rfm df = Ok rfm ->
  map metrics rfm = rfm_metrics df
  /\ Forall (fun a => segment a = segment_of (rfm_score a)) rfm.
Proof.
  intros H. apply compute_rfm_ok in H.
  destruct H as [rs [fs [gs [HR [HF [HM E]]]]]].
  unfold R_Score in HR. unfold M_Score in HM.
  destruct (@qcut_ok_ordered _ [4; 3; 2; 1]%Z _ eq_refl HR) as [LR _].
  destruct (@qcut_ok_ordered _ [1; 2; 3; 4]%Z _ eq_refl HM) as [LM _].
  destruct (@F_Score_ok_inv _ _ HF) as [Hn EF].
  rewrite !length_map in LR, LM.
  split.
  - rewrite E. apply zip_scores_metrics; [exact LR| |exact LM].
    rewrite EF, length_map, rank_first_length, !length_map. reflexivity.
  - apply Forall_forall. intros a Ha. rewrite E in Ha.
    apply In_nth_error in Ha. destruct Ha as [i Hi].
    apply zip_scores_nth in Hi. tauto.
Qed.

(** X10: when the RFM computation succeeds, the scored table has one row per
    row of the metrics table, in the same order; frequency and monetary
    scores are never missing and lie in 1..4; a customer with a recency has
    a recency score in 1..4; a customer without one has a missing recency
    score and falls in "Others"; and when no customer lacks a recency every
    code has three characters. *)
Theorem scored_table_is_well_formed (df : DataFrame) (rfm : list Scored) :
  compute_rfm df = Ok rfm ->
  map metrics rfm = rfm_metrics df
  /\ Forall well_scored rfm
  /\ (Forall (fun m => R m <> None) (rfm_metrics df) ->
      Forall (fun a => String.length (rfm_score a) = 3%nat) rfm).
Proof.
  intros H. apply compute_rfm_ok in H.
  destruct H as [rs [fs [gs [HR [HF [HM E]]]]]].
  set (ms := rfm_metrics df) in *.
  unfold R_Score in HR. unfold M_Score in HM.
  destruct (@qcut_ok_ordered _ [4; 3; 2; 1]%Z _ eq_refl HR) as [LR [NR OR]].
  destruct (@qcut_ok_ordered _ [1; 2; 3; 4]%Z _ eq_refl HM) as [LM [_ OM]].
  destruct (@F_Score_ok_inv _ _ HF) as [Hn EF].
  rewrite length_map in Hn, EF.
  rewrite !length_map in LR, LM.
  assert (LF : length fs = length ms).
  { rewrite EF, length_map, rank_first_length, !length_map. reflexivity. }
  assert (Each : forall a, In a rfm ->
                  In (metrics a) ms
                  /\ well_scored a
                  /\ (R (metrics a) <> None ->
                      String.length (rfm_score a) = 3%nat)).
  { intros a Ha. rewrite E in Ha.
    apply In_nth_error in Ha. destruct Ha as [i Hi].
    apply zip_scores_nth in Hi.
    destruct Hi as [Hm [Hr [Hf [Hg [Ec Es]]]]].
    split; [eapply nth_error_In; exact Hm|].
    assert (Fa : exists f, f_score a = Some f /\ (1 <= f <= 4)%Z).
    { rewrite EF, nth_error_map in Hf.
      destruct (nth_error (rank_first (map Z.of_nat (map F ms))) i)
        as [rho|] eqn:Er; [|discriminate].
      pose proof (rank_first_bounds _ _ Er) as B. rewrite !length_map in B.
      destruct (rank_score_spec Hn B) as [s [Esc [Bs _]]].
      simpl in Hf. rewrite Esc in Hf. inversion Hf. eauto. }
    assert (Ma : exists m, m_score a = Some m /\ (1 <= m <= 4)%Z).
    { assert (Hx : nth_error (map Some (map M ms)) i
                   = Some (Some (M (metrics a))))
        by (rewrite map_map, nth_error_map, Hm; reflexivity).
      destruct (OM i i _ _ Hx Hx (Qle_refl _)) as [p [q [Bp [Bq [Ep _]]]]].
      rewrite Hg, labels_ascending in Ep by lia. inversion Ep as [Ep'].
      exists (Z.of_nat p). split; [exact Ep'|lia]. }
    unfold well_scored.
    destruct Fa as [f [Ef Bf]]. destruct Ma as [m [Em Bm]].
    destruct (R (metrics a)) as [x|] eqn:ER.
    - assert (Hx : nth_error (map (option_map inject_Z) (map R ms)) i
                   = Some (Some (inject_Z x)))
        by (rewrite map_map, nth_error_map, Hm; simpl; rewrite ER;
            reflexivity).
      destruct (OR i i _ _ Hx Hx (Qle_refl _)) as [p [q [Bp [Bq [Ep _]]]]].
      rewrite Hr, labels_descending in Ep by lia. injection Ep as Ep'.
      assert (Br : (1 <= Z.of_nat (5 - p) <= 4)%Z) by lia.
      split; [split; [eauto|split; [eauto|eauto]]|].
      intros _. rewrite Ec, Ep', Ef, Em. apply code_length_3; assumption.
    - assert (Hx : nth_error (map (option_map inject_Z) (map R ms)) i
                   = Some None)
        by (rewrite map_map, nth_error_map, Hm; simpl; rewrite ER;
            reflexivity).
      pose proof (NR i Hx) as En. rewrite Hr in En. injection En as En'.
      split; [|congruence].
      split; [eauto|]. split; [eauto|]. split; [exact En'|].
      rewrite Es, Ec, En'. apply missing_recency_is_Others. }
  split; [rewrite E; apply zip_scores_metrics; assumption|].
  split.
  - apply Forall_forall. intros a Ha. apply (Each a Ha).
  - intros Hall. rewrite Forall_forall in Hall.
    apply Forall_forall. intros a Ha.
    destruct (Each a Ha) as [Hin [_ Hc]]. apply Hc. apply Hall. exact Hin.
Qed.

Lemma scored_table_is_well_formed_witness :
  exists rfm, compute_rfm (loaded ledger_spec_example) = Ok rfm
              /\ Forall well_scored rfm.
Proof.
  destruct (compute_rfm (loaded ledger_spec_example)) as [rfm|e] eqn:E;
    [|vm_compute in E; discriminate].
  exists rfm. split; [reflexivity|].
  apply (@scored_table_is_well_formed (loaded ledger_spec_example) rfm E).
Defined.

(** X11: in a scored table a customer with a smaller recency never has a
    smaller recency score, a customer with a larger monetary value never a
    smaller monetary score, and a customer with a strictly larger frequency
    never a smaller frequency score. *)
Theorem scores_follow_the_metrics (df : DataFrame) (rfm : list Scored)
  (a b : Scored) :
  compute_rfm df = Ok rfm -> In a rfm -> In b rfm ->
  (forall x y ra rb,
      R (metrics a) = Some x -> R (metrics b) = Some y -> (x <= y)%Z ->
      r_score a = Some ra -> r_score b = Some rb -> (rb <= ra)%Z)
  /\ (forall ma mb,
         (M (metrics a) <= M (metrics b))%Q ->
         m_score a = Some ma -> m_score b = Some mb -> (ma <= mb)%Z)
  /\ (forall fa fb,
         (F (metrics a) < F (metrics b))%nat ->
         f_score a = Some fa -> f_score b = Some fb -> (fa <= fb)%Z).
Proof.
  intros H Ha Hb. apply compute_rfm_ok in H.
  destruct H as [rs [fs [gs [HR [HF [HM E]]]]]].
  set (ms := rfm_metrics df) in *.
  unfold R_Score in HR. unfold M_Score in HM.
  destruct (@qcut_ok_ordered _ [4; 3; 2; 1]%Z _ eq_refl HR) as [_ [_ OR]].
  destruct (@qcut_ok_ordered _ [1; 2; 3; 4]%Z _ eq_refl HM) as [_ [_ OM]].
  destruct (@F_Score_ok_inv _ _ HF) as [Hn EF].
  rewrite length_map in Hn, EF.
  rewrite E in Ha, Hb.
  apply In_nth_error in Ha. destruct Ha as [i Hi].
  apply In_nth_error in Hb. destruct Hb as [j Hj].
  apply zip_scores_nth in Hi. destruct Hi as [Hmi [Hri [Hfi [Hgi _]]]].
  apply zip_scores_nth in Hj. destruct Hj as [Hmj [Hrj [Hfj [Hgj _]]]].
  split; [|split].
  - intros x y ra rb Ex Ey Hxy Era Erb.
    assert (Hx : nth_error (map (option_map inject_Z) (map R ms)) i
                 = Some (Some (inject_Z x)))
      by (rewrite map_map, nth_error_map, Hmi; simpl; rewrite Ex; reflexivity).
    assert (Hy : nth_error (map (option_map inject_Z) (map R ms)) j
                 = Some (Some (inject_Z y)))
      by (rewrite map_map, nth_error_map, Hmj; simpl; rewrite Ey; reflexivity).
    assert (L : (inject_Z x <= inject_Z y)%Q) by (rewrite <- Zle_Qle; exact Hxy).
    destruct (OR i j _ _ Hx Hy L) as [p [q [Bp [Bq [Ep Eq]]]]].
    rewrite Hri, Era, labels_descending in Ep by lia.
    rewrite Hrj, Erb, labels_descending in Eq by lia.
    assert (Ea : ra = Z.of_nat (5 - p)) by congruence.
    assert (Eb : rb = Z.of_nat (5 - q)) by congruence.
    lia.
  - intros ma mb Hle Ema Emb.
    assert (Hx : nth_error (map Some (map M ms)) i
                 = Some (Some (M (metrics a))))
      by (rewrite map_map, nth_error_map, Hmi; reflexivity).
    assert (Hy : nth_error (map Some (map M ms)) j
                 = Some (Some (M (metrics b))))
      by (rewrite map_map, nth_error_map, Hmj; reflexivity).
    destruct (OM i j _ _ Hx Hy Hle) as [p [q [Bp [Bq [Ep Eq]]]]].
    rewrite Hgi, Ema, labels_ascending in Ep by lia.
    rewrite Hgj, Emb, labels_ascending in Eq by lia.
    assert (Ea : ma = Z.of_nat p) by congruence.
    assert (Eb : mb = Z.of_nat q) by congruence.
    lia.
  - intros fa fb Hlt Efa Efb.
    rewrite EF, nth_error_map in Hfi, Hfj.
    destruct (nth_error (rank_first (map Z.of_nat (map F ms))) i)
      as [ri|] eqn:Eri; [|discriminate].
    destruct (nth_error (rank_first (map Z.of_nat (map F ms))) j)
      as [rj|] eqn:Erj; [|discriminate].
    cbn [option_map] in Hfi, Hfj.
    assert (Hzi : nth_error (map Z.of_nat (map F ms)) i
                  = Some (Z.of_nat (F (metrics a))))
      by (rewrite map_map, nth_error_map, Hmi; reflexivity).
    assert (Hzj : nth_error (map Z.of_nat (map F ms)) j
                  = Some (Z.of_nat (F (metrics b))))
      by (rewrite map_map, nth_error_map, Hmj; reflexivity).
    pose proof (rank_first_bounds _ _ Eri) as Bi.
    pose proof (rank_first_bounds _ _ Erj) as Bj.
    rewrite !length_map in Bi, Bj.
    assert (Hr : (ri <= rj)%nat).
    { destruct (Nat.lt_trichotomy i j) as [L|[L|L]].
      - destruct (rank_first_order _ L Hzi Hzj Eri Erj) as [H1 _].
        assert (ri < rj)%nat by (apply H1; lia). lia.
      - subst j. rewrite Hmi in Hmj. inversion Hmj as [Eab].
        rewrite Eab in Hlt. lia.
      - destruct (rank_first_order _ L Hzj Hzi Erj Eri) as [_ H2].
        assert (ri < rj)%nat by (apply H2; lia). lia. }
    destruct (rank_score_spec Hn Bi) as [si [Esi [_ [_ [_ Mono]]]]].
    assert (Ea : si = fa) by congruence. subst si.
    apply (Mono rj fb); [lia|congruence].
Qed.

Lemma scores_follow_the_metrics_witness :
  Forall (fun a =>
            Forall (fun b =>
                      forall ma mb,
                        (M (metrics a) <= M (metrics b))%Q ->
                        m_score a = Some ma -> m_score b = Some mb ->
                        (ma <= mb)%Z) scored_example) scored_example.
Proof.
  apply Forall_forall. intros a Ha. apply Forall_forall. intros b Hb.
  assert (H : compute_rfm (loaded ledger_spec_example) = Ok scored_example)
    by (vm_compute; reflexivity).
  exact (proj1 (proj2 (@scores_follow_the_metrics
                         (loaded ledger_spec_example) scored_example a b
                         H Ha Hb))).
Defined.

(** ** Segments on the ledger *)

Lemma segment_of_named (code : string) : In (segment_of code) segment_names.
Proof.
  unfold segment_of, segment_map, dict_get.
  repeat match goal with
         | |- context [String.eqb code ?k] => destruct (String.eqb code k)
         end; simpl; tauto.
Qed.

Lemma merge_segment_row (df : DataFrame) (rfm : list Scored) (r' : Row) :
  In r' (merge_segment df rfm) ->
  exists r, In r df
            /\ r' = set_Segment
                      match CustomerID r with
                      | Some c =>
                          option_map segment
                            (find (fun s => id_eqb (customer (metrics s)) c)
                                  rfm)
                      | None => None
                      end r.
Proof.
  unfold merge_segment. intros H. apply in_map_iff in H.
  destruct H as [r [E Hr]]. exists r. auto.
Qed.

(** X12: when the RFM computation succeeds, the merge keeps the rows, their
    order and every other column, and gives each row the segment of its
    customer: rows of the same customer get the same segment, one of the
    eight names; a row without a customer gets none. *)
Theorem merged_rows_carry_their_segment (df : DataFrame) (rfm : list Scored) :
  compute_rfm df = Ok rfm ->
  map (set_Segment None) (merge_segment df rfm) = map (set_Segment None) df
  /\ forall r', In r' (merge_segment df rfm) ->
       match CustomerID r' with
       | Some c =>
           exists a, In a rfm /\ customer (metrics a) = c
                     /\ Segment r' = Some (segment a)
                     /\ In (segment a) segment_names
       | None => Segment r' = None
       end.
Proof.
  intros H. split.
  - unfold merge_segment. rewrite map_map. apply map_ext. intros r.
    reflexivity.
  - intros r' Hr'. apply merge_segment_row in Hr'.
    destruct Hr' as [r [Hr E]]. subst r'. cbn [set_Segment CustomerID Segment].
    destruct (CustomerID r) as [c|] eqn:Ec; [|reflexivity].
    destruct (@scored_table_rows df rfm H) as [Em Hs].
    assert (Hc : In c (map customer (map metrics rfm))).
    { rewrite Em, rfm_metrics_customers. apply customers_In. eauto. }
    rewrite map_map in Hc. apply in_map_iff in Hc.
    destruct Hc as [a0 [Ea0 Ha0]].
    destruct (find (fun s => id_eqb (customer (metrics s)) c) rfm)
      as [a|] eqn:Ef.
    + apply find_some in Ef. destruct Ef as [Ha Eq].
      apply id_eqb_eq in Eq. exists a.
      split; [exact Ha|]. split; [exact Eq|]. split; [reflexivity|].
      rewrite Forall_forall in Hs. rewrite (Hs a Ha).
      apply segment_of_named.
    + pose proof (@find_none _ _ _ Ef a0 Ha0) as N. cbn beta in N.
      rewrite Ea0, id_eqb_refl in N. discriminate.
Qed.

Lemma merged_rows_carry_their_segment_witness :
  map (set_Segment None) (merge_segment (loaded ledger_spec_example)
                            scored_example)
  = map (set_Segment None) (loaded ledger_spec_example).
Proof.
  apply (@merged_rows_carry_their_segment (loaded ledger_spec_example)
           scored_example).
  vm_compute. reflexivity.
Defined.

(** ** Start of the script *)

Lemma qcut_raises_labels_error (x : list (option Q)) (q : nat)
  (labels : list Z) (e : exn) :
  qcut x q labels = Raise e -> e = labels_error.
Proof.
  unfold qcut.
  destruct (negb (length labels =? length _ - 1)%nat); intros H;
    inversion H; reflexivity.
Qed.

(** X13: a ledger with exactly one customer always makes the RFM computation
    raise the [ValueError] of [qcut], whatever its rows. *)
Theorem single_customer_always_raises (df : DataFrame) :
  length (rfm_metrics df) = 1%nat -> compute_rfm df = Raise labels_error.
Proof.
  intros H. unfold compute_rfm.
  destruct (R_Score (map R (rfm_metrics df))) as [rs|e] eqn:ER.
  - rewrite F_Score_small_raises; [reflexivity|].
    rewrite length_map. lia.
  - apply qcut_raises_labels_error in ER. subst e. reflexivity.
Qed.

Lemma single_customer_always_raises_witness :
  compute_rfm (loaded ledger_one_customer) = Raise labels_error.
Proof.
  apply (@single_customer_always_raises (loaded ledger_one_customer)).
  vm_compute. reflexivity.
Defined.

(** ** Filters *)

Lemma isin_In (c : option string) (values : list string) :
  isin c values = true <-> exists x, c = Some x /\ In x values.
Proof.
  destruct c as [s|]; simpl.
  - rewrite (mem_In String.eqb String.eqb_eq). split.
    + intros H. eauto.
    + intros [x [E H]]. inversion E. subst. exact H.
  - split; [discriminate|]. intros [x [E _]]. discriminate.
Qed.

Lemma date_window_In (s e : Z) (c : option Z) :
  ge_date c s && le_date c e = true
  <-> exists t, c = Some t /\ (s <= t <= e)%Z.
Proof.
  destruct c as [t|]; simpl.
  - rewrite andb_true_iff, !Z.leb_le. split.
    + intros H. exists t. auto.
    + intros [t' [E H]]. inversion E. subst. exact H.
  - split; [discriminate|]. intros [t [E _]]. discriminate.
Qed.

(** X15: a row is in the filtered frame exactly when it is in the ledger and
    passes every filter that is set: the date window when both dates are
    given, the category list and the country list when they are not empty. *)
Theorem filtered_rows_characterised (df : DataFrame)
  (start_date end_date : option Z) (categories countries : option (list string))
  (r : Row) :
  In r (apply_filters df start_date end_date categories countries)
  <-> In r df /\ passes_dates start_date end_date r
      /\ passes_choice categories (Category r)
      /\ passes_choice countries (Country r).
Proof.
  unfold apply_filters, passes_dates, passes_choice.
  destruct start_date as [s|]; destruct end_date as [e|];
    destruct categories as [[|c cs]|]; destruct countries as [[|k ks]|];
    cbn [truthy]; rewrite ?filter_In, ?isin_In, ?date_window_In; tauto.
Qed.

(** X16: filtering is idempotent, and filtering in two steps, dates first
    and the two lists after, gives the same frame as all filters at once. *)
Theorem filters_idempotent_and_compose (df : DataFrame)
  (start_date end_date : option Z) (categories countries : option (list string)) :
  apply_filters
    (apply_filters df start_date end_date categories countries)
    start_date end_date categories countries
  = apply_filters df start_date end_date categories countries
  /\ apply_filters (apply_filters df start_date end_date None None)
       None None categories countries
     = apply_filters df start_date end_date categories countries
  /\ apply_filters (apply_filters df None None categories countries)
       start_date end_date None None
     = apply_filters df start_date end_date categories countries.
Proof.
  unfold apply_filters.
  destruct start_date as [s|]; destruct end_date as [e|];
    destruct categories as [[|c cs]|]; destruct countries as [[|k ks]|];
    cbn [truthy]; repeat split; try reflexivity;
    rewrite ?filter_both; apply filter_ext; intros x;
    repeat match goal with
           | |- context [isin ?a ?b] => destruct (isin a b)
           | |- context [ge_date ?a ?b] => destruct (ge_date a b)
           | |- context [le_date ?a ?b] => destruct (le_date a b)
           end; reflexivity.
Qed.

(** X17: when none of the selected categories occurs in the ledger, the
    filtered frame is empty, whatever the other filters, and the callback
    raises: [px.bar] refuses the empty top-products series at line 361. *)
Theorem unknown_categories_make_callback_raise (df : DataFrame)
  (start_date end_date : option Z) (categories : list string)
  (countries : option (list string)) :
  categories <> [] ->
  (forall r c, In r df -> Category r = Some c -> ~ In c categories) ->
  apply_filters df start_date end_date (Some categories) countries = []
  /\ update_charts df start_date end_date (Some categories) countries
     = Raise columns_error.
Proof.
  intros Hc H.
  assert (E : apply_filters df start_date end_date (Some categories) countries
              = []).
  { unfold apply_filters.
    destruct categories as [|c cs]; [congruence|]. cbn [truthy].
    set (dated := match start_date, end_date with
                  | Some s, Some e => filter _ df
                  | _, _ => df
                  end).
    assert (Hd : forall r, In r dated -> In r df).
    { unfold dated. intros r Hr.
      destruct start_date; destruct end_date; try exact Hr.
      apply filter_In in Hr. tauto. }
    rewrite (filter_none _ dated).
    - destruct (truthy countries); reflexivity.
    - intros r Hr. destruct (isin (Category r) (c :: cs)) eqn:Ei;
        [|reflexivity].
      apply isin_In in Ei. destruct Ei as [x [Ex Hx]].
      exfalso. apply (H r x (Hd r Hr) Ex Hx). }
  split; [exact E|].
  unfold update_charts. rewrite E. reflexivity.
Qed.

Lemma unknown_categories_make_callback_raise_witness :
  update_charts (started ledger_ties) None None (Some ["Garden"%string]) None
  = Raise columns_error.
Proof.
  apply (@unknown_categories_make_callback_raise (started ledger_ties)).
  - discriminate.
  - intros r c Hr Ec Hc. simpl in Hc. destruct Hc as [Hc|[]]. subst c.
    vm_compute in Hr.
    repeat (destruct Hr as [Hr|Hr]; [subst r; discriminate|]).
    destruct Hr.
Defined.

(** ** Widgets of the layout *)

Lemma fold_min_spec (t : Z) (l : list Z) :
  forall u, In u (t :: l) -> (fold_right Z.min t l <= u)%Z.
Proof.
  induction l as [|a l IH]; simpl.
  - intros u [E|[]]. lia.
  - intros u [E|[E|H]].
    + subst. pose proof (IH u (or_introl eq_refl)). lia.
    + subst. lia.
    + pose proof (IH u (or_intror H)). lia.
Qed.

Lemma dropna_id_In (A : Type) (s : list (option A)) (u : A) :
  In u (dropna s) <-> In (Some u) s.
Proof.
  rewrite <- (map_id s) at 1. rewrite dropna_In.
  split; [intros [a [H E]]; subst; exact H|intros H; eauto].
Qed.

(** X18: with the initial dates of the date picker, the earliest and the
    latest invoice date, the callback keeps exactly the rows that have a
    date; rows whose date did not parse are filtered out.  When no row has a
    date both pickers are empty and every row is kept. *)
Theorem default_dates_keep_dated_rows (df : DataFrame) :
  apply_filters df (picker_start_date df) (picker_end_date df) None None
  = match picker_start_date df with
    | Some _ => filter (fun r => notna (InvoiceDate r)) df
    | None => df
    end.
Proof.
  unfold picker_start_date, picker_end_date, date_min, date_max, apply_filters.
  destruct (dropna (map InvoiceDate df)) as [|t l] eqn:E; [reflexivity|].
  cbn [truthy]. apply filter_ext_in. intros r Hr.
  destruct (InvoiceDate r) as [u|] eqn:Eu; [|reflexivity].
  assert (Hu : In u (t :: l)).
  { rewrite <- E. apply dropna_In. eauto. }
  pose proof (@fold_min_spec t l u Hu) as Lo.
  pose proof (proj2 (fold_max_spec t l) u Hu) as Hi.
  cbn [ge_date le_date notna isna negb].
  apply andb_true_iff. rewrite !Z.leb_le. auto.
Qed.

(** X19: the options of the category dropdown.  When they can be built they
    are the categories of the ledger, each once, in ascending order, and
    selecting any one of them alone keeps at least one row.  When a row has
    no category and another has one, building the options raises. *)
Theorem category_options_select_rows (df : DataFrame) :
  (forall opts,
      dropdown_options (map Category df) = Options opts ->
      StronglySorted (rel_of String.ltb) opts
      /\ (forall c, In c opts <-> exists r, In r df /\ Category r = Some c)
      /\ forall c, In c opts ->
                   apply_filters df None None (Some [c]) None <> [])
  /\ (In None (map Category df) ->
      (exists c, In (Some c) (map Category df)) ->
      dropdown_options (map Category df) = OptionsTypeError).
Proof.
  unfold dropdown_options. split.
  - intros opts H.
    destruct (existsb isna (map Category df));
      [destruct (unique String.eqb (dropna (map Category df))); discriminate|].
    inversion H; subst opts; clear H.
    split; [apply (groupby_keys_ascending Category df)|].
    assert (K : forall c,
               In c (sort String.leb
                       (unique String.eqb (dropna (map Category df))))
               <-> exists r, In r df /\ Category r = Some c)
      by (intros c;
          apply (@groupby_keys_In _ String.eqb String.leb String.eqb_eq
                   Category df c)).
    split; [exact K|].
    intros c Hc E. apply K in Hc. destruct Hc as [r [Hr Ec]].
    assert (Hin : In r (apply_filters df None None (Some [c]) None)).
    { unfold apply_filters. cbn [truthy]. apply filter_In.
      split; [exact Hr|]. apply isin_In. exists c. simpl. auto. }
    rewrite E in Hin. destruct Hin.
  - intros Hn [c Hc].
    assert (En : existsb isna (map Category df) = true).
    { apply existsb_exists. exists None. auto. }
    rewrite En.
    assert (Hin : In c (unique String.eqb (dropna (map Category df)))).
    { apply (unique_In String.eqb String.eqb_eq). apply dropna_id_In.
      exact Hc. }
    destruct (unique String.eqb (dropna (map Category df)));
      [destruct Hin|reflexivity].
Qed.

Lemma category_options_select_rows_witness :
  apply_filters (started ledger_ties) None None (Some ["Books"%string]) None
  <> [].
Proof.
  destruct (category_options_select_rows (started ledger_ties)) as [H _].
  destruct (H ["Books"%string]) as [_ [_ S]].
  - vm_compute. reflexivity.
  - apply S. simpl. auto.
Defined.

(** ** Rankings and grouped sums *)

Lemma StronglySorted_app_le (A : Type) (R : A -> A -> Prop) (l1 l2 : list A) :
  StronglySorted R (l1 ++ l2) ->
  forall x y, In x l1 -> In y l2 -> R x y.
Proof.
  induction l1 as [|a t IH]; simpl; intros H x y Hx Hy; [destruct Hx|].
  inversion H as [|a' l' Ht Ha]; subst.
  destruct Hx as [E|Hx].
  - subst. rewrite Forall_forall in Ha. apply Ha. apply in_or_app. auto.
  - apply IH; assumption.
Qed.

(** [nlargest] keeps the first [n] of the descending order: what it leaves
    out is never larger than what it keeps. *)
Lemma nlargest_spec (K : Type) (n : nat) (s : list (K * Q)) :
  length (nlargest n s) = Nat.min n (length s)
  /\ exists rest,
      Permutation s (nlargest n s ++ rest)
      /\ forall x y, In x (nlargest n s) -> In y rest -> (snd y <= snd x)%Q.
Proof.
  unfold nlargest.
  set (leb := fun a b : K * Q => Qle_bool (snd b) (snd a)).
  split; [rewrite length_firstn, sort_length; reflexivity|].
  exists (skipn n (sort leb s)). split.
  - rewrite firstn_skipn. apply Permutation_sym, sort_perm.
  - apply StronglySorted_app_le. rewrite firstn_skipn.
    assert (T : forall a b, leb a b = true \/ leb b a = true)
      by (intros a b; apply Qle_bool_total).
    pose proof (sort_sorted leb T s) as H.
    apply Sorted_StronglySorted in H.
    + clear T. induction H as [|a l Hl IH Ha]; constructor; [exact IH|].
      eapply Forall_impl; [|exact Ha]. intros b Hb.
      apply Qle_bool_iff. exact Hb.
    + intros a b c. unfold rel_of, leb. rewrite !Qle_bool_iff.
      intros H1 H2. apply Qle_trans with (snd b); assumption.
Qed.

(** X20: the two rankings of the callback.  Top countries has five entries,
    or as many as there are countries if fewer, in weakly descending order
    of revenue, and no country left out has more revenue than one listed;
    the same holds for top products with ten. *)
Theorem rankings_keep_the_largest (fdf : DataFrame) :
  let by_country := groupby_revenue String.eqb String.leb Country fdf in
  let by_product := groupby_revenue String.eqb String.leb Description fdf in
  (length (countries_data (aggregates fdf)) = Nat.min 5 (length by_country)
   /\ descending (countries_data (aggregates fdf))
   /\ exists rest,
       Permutation by_country (countries_data (aggregates fdf) ++ rest)
       /\ forall x y, In x (countries_data (aggregates fdf)) -> In y rest ->
                      (snd y <= snd x)%Q)
  /\ (length (top_prod (aggregates fdf)) = Nat.min 10 (length by_product)
      /\ descending (top_prod (aggregates fdf))
      /\ exists rest,
          Permutation by_product (top_prod (aggregates fdf) ++ rest)
          /\ forall x y, In x (top_prod (aggregates fdf)) -> In y rest ->
                         (snd y <= snd x)%Q).
Proof.
  intros by_country by_product. cbn [aggregates countries_data top_prod].
  fold by_country. fold by_product.
  destruct (nlargest_spec 5 by_country) as [L5 R5].
  destruct (nlargest_spec 10 by_product) as [L10 R10].
  split; [split; [exact L5|split; [apply nlargest_descending|exact R5]]|].
  split; [exact L10|split; [apply nlargest_descending|exact R10]].
Qed.

Lemma Sorted_Zleb_NoDup_lt (l : list Z) :
  Sorted (rel_of Z.leb) l -> NoDup l -> StronglySorted Z.lt l.
Proof.
  intros S N. apply Sorted_StronglySorted; [intros a b c; apply Z.lt_trans|].
  induction S as [|a t Ht IH Ha]; constructor.
  - apply IH. inversion N. assumption.
  - destruct Ha as [|b t' Hab]; constructor.
    unfold rel_of in Hab. apply Z.leb_le in Hab.
    assert (a <> b).
    { intros E. subst b. inversion N as [|x l' Hn]. apply Hn. left.
      reflexivity. }
    lia.
Qed.

Section GroupbyRevenue.
Variable K : Type.
Variable eqb leb : K -> K -> bool.
Hypothesis eqb_spec : forall a b, eqb a b = true <-> a = b.
Variable key : Row -> option K.

Lemma groupby_revenue_keys (df : DataFrame) :
  map fst (groupby_revenue eqb leb key df)
  = sort leb (unique eqb (dropna (map key df))).
Proof.
  unfold groupby_revenue. rewrite map_map. cbn [fst]. apply map_id.
Qed.

Lemma groupby_revenue_In (df : DataFrame) (k : K) :
  In k (map fst (groupby_revenue eqb leb key df))
  <-> exists r, In r df /\ key r = Some k.
Proof.
  rewrite groupby_revenue_keys, sort_in, (unique_In eqb eqb_spec), dropna_In.
  reflexivity.
Qed.

Lemma groupby_revenue_NoDup (df : DataFrame) :
  NoDup (map fst (groupby_revenue eqb leb key df)).
Proof.
  rewrite groupby_revenue_keys.
  apply (Permutation_NoDup (Permutation_sym (sort_perm leb _))).
  apply (unique_NoDup eqb eqb_spec).
Qed.

End GroupbyRevenue.

Lemma Zeqb_spec (a b : Z) : (a =? b)%Z = true <-> a = b.
Proof. apply Z.eqb_eq. Qed.

(** X21: the category chart has one entry per category that occurs in the
    filtered frame, in strictly ascending order of the name. *)
Theorem category_chart_keys_ascending (fdf : DataFrame) :
  StronglySorted (rel_of String.ltb) (map fst (category_data (aggregates fdf)))
  /\ forall c, In c (map fst (category_data (aggregates fdf)))
               <-> exists r, In r fdf /\ Category r = Some c.
Proof.
  cbn [aggregates category_data]. split.
  - rewrite groupby_revenue_keys. apply (groupby_keys_ascending Category fdf).
  - intros c. apply (groupby_revenue_In String.eqb String.leb String.eqb_eq).
Qed.

(** X22: the monthly series has one bucket per month in which the filtered
    frame has a dated row, in chronological order. *)
Theorem monthly_series_is_chronological (fdf : DataFrame) :
  StronglySorted Z.lt (map fst (monthly (aggregates fdf)))
  /\ forall p, In p (map fst (monthly (aggregates fdf)))
               <-> exists r t, In r fdf /\ InvoiceDate r = Some t
                               /\ to_period_M t = p.
Proof.
  cbn [aggregates monthly]. split.
  - apply Sorted_Zleb_NoDup_lt.
    + rewrite groupby_revenue_keys. apply sort_sorted.
      intros a b. rewrite !Z.leb_le. lia.
    + apply (groupby_revenue_NoDup Z.eqb Z.leb Zeqb_spec).
  - intros p. rewrite (groupby_revenue_In Z.eqb Z.leb Zeqb_spec). split.
    + intros [r [Hr E]]. destruct (InvoiceDate r) as [t|] eqn:Et;
        [|discriminate]. simpl in E. inversion E. eauto.
    + intros [r [t [Hr [Et E]]]]. exists r. rewrite Et. simpl.
      split; [exact Hr|congruence].
Qed.

Lemma ranking_empty (n : nat) (key : Row -> option string) (fdf : DataFrame) :
  (0 < n)%nat ->
  nlargest n (groupby_revenue String.eqb String.leb key fdf) = []
  <-> forall r, In r fdf -> key r = None.
Proof.
  intros Hn.
  pose proof (proj1 (nlargest_spec n
                       (groupby_revenue String.eqb String.leb key fdf))) as L.
  pose proof (groupby_revenue_In String.eqb String.leb String.eqb_eq key fdf)
    as K.
  split.
  - intros E r Hr. rewrite E in L. simpl in L.
    destruct (groupby_revenue String.eqb String.leb key fdf) as [|a t];
      [|simpl in L; lia].
    destruct (key r) as [k|] eqn:Ek; [|reflexivity].
    exfalso. apply (proj2 (K k)). eauto.
  - intros H.
    destruct (groupby_revenue String.eqb String.leb key fdf) as [|a t] eqn:E.
    + destruct (nlargest n []) eqn:En; [reflexivity|simpl in L; lia].
    + exfalso. destruct (proj1 (K (fst a))) as [r [Hr Ek]];
        [left; reflexivity|].
      rewrite (H r Hr) in Ek. discriminate.
Qed.

(** X24: the outcome of the callback.  It returns the five series of the
    filtered frame when that frame has a row with a description and a row
    with a country; when no row has a description, or none has a country,
    it raises the [ValueError] of [px.bar] (lines 361 and 369). *)
Theorem callback_returns_or_raises (df : DataFrame)
  (start_date end_date : option Z) (categories countries : option (list string)) :
  let fdf := apply_filters df start_date end_date categories countries in
  ((exists r d, In r fdf /\ Description r = Some d) ->
   (exists r c, In r fdf /\ Country r = Some c) ->
   update_charts df start_date end_date categories countries
   = Ok (aggregates fdf))
  /\ ((forall r, In r fdf -> Description r = None)
      \/ (forall r, In r fdf -> Country r = None) ->
      update_charts df start_date end_date categories countries
      = Raise columns_error).
Proof.
  intros fdf. unfold update_charts. fold fdf.
  pose proof (@ranking_empty 10 Description fdf) as P.
  pose proof (@ranking_empty 5 Country fdf) as C.
  unfold aggregates.
  cbn [top_prod countries_data monthly segments category_data].
  set (products := nlargest 10 _) in *.
  set (places := nlargest 5 _) in *.
  split.
  - intros [r [d [Hr Ed]]] [r' [c [Hr' Ec]]].
    destruct products as [|a t].
    { rewrite (proj1 (P ltac:(lia)) eq_refl r Hr) in Ed. discriminate. }
    destruct places as [|a' t'].
    { rewrite (proj1 (C ltac:(lia)) eq_refl r' Hr') in Ec. discriminate. }
    reflexivity.
  - intros [H|H].
    + rewrite (proj2 (P ltac:(lia)) H). reflexivity.
    + rewrite (proj2 (C ltac:(lia)) H).
      destruct products; reflexivity.
Qed.

Lemma callback_returns_or_raises_witness :
  update_charts (started ledger_ties) None None None None
  = Ok (aggregates (started ledger_ties)).
Proof.
  assert (E : exists r t, started ledger_ties = r :: t
                          /\ Description r = Some "lamp"%string
                          /\ Country r = Some "UK"%string).
  { vm_compute. do 2 eexists. split; [reflexivity|]. split; reflexivity. }
  destruct E as [r [t [E [Ed Ec]]]].
  apply (proj1 (@callback_returns_or_raises (started ledger_ties) None None
                  None None)).
  - exists r, "lamp"%string. split; [|exact Ed].
    change (In r (started ledger_ties)). rewrite E. left. reflexivity.
  - exists r, "UK"%string. split; [|exact Ec].
    change (In r (started ledger_ties)). rewrite E. left. reflexivity.
Defined.

(** ** Segment counts *)

Lemma list_sum_perm (l l' : list nat) :
  Permutation l l' -> list_sum l = list_sum l'.
Proof. induction 1; simpl; lia. Qed.

Lemma list_sum_cons (a : nat) (l : list nat) :
  list_sum (a :: l) = (a + list_sum l)%nat.
Proof. reflexivity. Qed.

Lemma count_one_key (keys : list string) (v : string) :
  NoDup keys -> In v keys ->
  list_sum (map (fun k => if String.eqb k v then 1 else 0)%nat keys) = 1%nat.
Proof.
  induction 1 as [|k ks Hk Hks IH]; intros Hv; [destruct Hv|].
  simpl. destruct (String.eqb k v) eqn:E.
  - apply String.eqb_eq in E. subst k.
    assert (Z0 : list_sum (map (fun k => if String.eqb k v then 1 else 0)%nat ks)
                 = 0%nat).
    { clear IH Hks Hv. induction ks as [|a t IH]; [reflexivity|]. simpl.
      destruct (String.eqb a v) eqn:Ea.
      - apply String.eqb_eq in Ea. subst a. exfalso. apply Hk. left.
        reflexivity.
      - apply IH. intros H. apply Hk. right. exact H. }
    rewrite Z0. reflexivity.
  - destruct Hv as [Hv|Hv]; [subst k; rewrite String.eqb_refl in E;
                              discriminate|].
    rewrite (IH Hv). reflexivity.
Qed.

Lemma counts_partition (keys vals : list string) :
  NoDup keys -> (forall v, In v vals -> In v keys) ->
  list_sum (map (fun k => length (filter (String.eqb k) vals)) keys)
  = length vals.
Proof.
  intros N. induction vals as [|v t IH]; intros H.
  - clear N H. induction keys as [|k ks IHk]; [reflexivity|]. simpl.
    exact IHk.
  - assert (E : list_sum (map (fun k => length (filter (String.eqb k) (v :: t)))
                            keys)
                = (list_sum (map (fun k => if String.eqb k v then 1 else 0) keys)
                   + list_sum (map (fun k => length (filter (String.eqb k) t))
                                 keys))%nat).
    { clear. induction keys as [|k ks IHk]; [reflexivity|].
      rewrite !map_cons, !list_sum_cons, IHk, filter_length_cons. lia. }
    rewrite E, count_one_key, IH; [reflexivity| |exact N|].
    + intros x Hx. apply H. right. exact Hx.
    + apply H. left. reflexivity.
Qed.

Lemma count_rows (col : Row -> option string) (df : DataFrame) (s : string) :
  length (filter (String.eqb s) (dropna (map col df)))
  = length (filter (fun r => opt_eqb String.eqb (col r) (Some s)) df).
Proof.
  induction df as [|r t IH]; [reflexivity|]. simpl.
  destruct (col r) as [v|]; simpl; [|exact IH].
  rewrite (String.eqb_sym s v). destruct (String.eqb v s); simpl; lia.
Qed.

Lemma dropna_length (col : Row -> option string) (df : DataFrame) :
  length (dropna (map col df))
  = length (filter (fun r => notna (col r)) df).
Proof.
  induction df as [|r t IH]; [reflexivity|]. simpl.
  destruct (col r); unfold notna in *; simpl; lia.
Qed.

(** X23: the segment chart lists each segment of the filtered frame once,
    with the number of its rows, which is at least 1; the counts are in
    descending order and add up to the number of rows that have a segment. *)
Theorem segment_counts_add_up (fdf : DataFrame) :
  NoDup (map fst (segments (aggregates fdf)))
  /\ (forall s n,
         In (s, n) (segments (aggregates fdf)) ->
         (1 <= n)%nat
         /\ n = length (filter (fun r => opt_eqb String.eqb (Segment r) (Some s))
                          fdf))
  /\ list_sum (map snd (segments (aggregates fdf)))
     = length (filter (fun r => notna (Segment r)) fdf)
  /\ Sorted (fun a b => (snd b <= snd a)%nat) (segments (aggregates fdf)).
Proof.
  cbn [aggregates segments]. unfold value_counts.
  set (vals := dropna (map Segment fdf)).
  set (leb := fun a b : string * nat => (snd b <=? snd a)%nat).
  set (counted := map (fun k => (k, length (filter (String.eqb k) vals)))
                      (unique String.eqb vals)).
  assert (P : Permutation (sort leb counted) counted) by apply sort_perm.
  assert (Ef : map fst counted = unique String.eqb vals).
  { unfold counted. rewrite map_map. cbn [fst]. apply map_id. }
  split; [|split; [|split]].
  - apply (Permutation_NoDup (Permutation_sym (Permutation_map fst P))).
    rewrite Ef. apply (unique_NoDup String.eqb String.eqb_eq).
  - intros s n H. apply (Permutation_in _ P) in H.
    unfold counted in H. apply in_map_iff in H. destruct H as [k [E Hk]].
    injection E as E1 E2. subst s n.
    apply (proj1 (unique_In String.eqb String.eqb_eq vals k)) in Hk.
    split; [|unfold vals; apply count_rows].
    assert (Hin : In k (filter (String.eqb k) vals)).
    { apply filter_In. split; [exact Hk|apply String.eqb_refl]. }
    destruct (filter (String.eqb k) vals); [destruct Hin|simpl; lia].
  - rewrite (list_sum_perm (Permutation_map snd P)).
    unfold counted. rewrite map_map. cbn [snd].
    rewrite counts_partition.
    + apply dropna_length.
    + apply (unique_NoDup String.eqb String.eqb_eq).
    + intros v Hv. apply (unique_In String.eqb String.eqb_eq). exact Hv.
  - pose proof (sort_sorted leb) as S.
    assert (T : forall a b, leb a b = true \/ leb b a = true).
    { intros a b. unfold leb. rewrite !Nat.leb_le. lia. }
    specialize (S T counted). clear P Ef T. revert S.
    generalize (sort leb counted). intros sorted S.
    induction S as [|a l Hl IH Ha]; constructor; [exact IH|].
    destruct Ha as [|b l' Hab]; constructor.
    unfold rel_of, leb in Hab. apply Nat.leb_le in Hab. exact Hab.
Qed.
